(** * rss2socials: change detection and multi-destination publishing

    A shallow embedding of the orchestration code of rss2socials
    (internal/rss2socials, internal/db, internal/rss, internal/mastodon,
    internal/bluesky, internal/threads, internal/gotify, pkg/config) and the
    properties of its poll loop.

    Go strings are byte strings: they are Stdlib [string]s, one [ascii] per
    byte.  The SQLite table [tooted_posts], keyed by [link], is a finite map.
    Everything outside the process (the feed server, the three social
    networks, Gotify, the storage engine, the wall clock) is an oracle that
    answers from the history of calls made so far. *)

From Stdlib Require Import ZArith List String Ascii Bool Lia.
From stdpp Require Import base option list strings gmap.

Import ListNotations.
Local Open Scope string_scope.
Local Open Scope list_scope.

(** ** Go standard library: strings, path, crypto/sha256, fmt *)

Module strings.

(** [strings.HasPrefix(s, prefix)]:
    [len(s) >= len(prefix) && s[:len(prefix)] == prefix]. *)
Definition HasPrefix (s pre : string) : bool := String.prefix pre s.

(** [strings.Contains(s, substr)]: [Index(s, substr) >= 0]; the empty
    substring is found at index 0. *)
Fixpoint Contains (s substr : string) : bool :=
  if String.prefix substr s then true
  else match s with
       | EmptyString => false
       | String _ s' => Contains s' substr
       end.

End strings.

Module path.

Definition slash : ascii := "/"%char.

(** The loop [for len(path) > 0 && path[len(path)-1] == '/'] of [Base]. *)
Fixpoint stripTrailingSlashes (p : string) : string :=
  match p with
  | EmptyString => EmptyString
  | String c p' =>
      match stripTrailingSlashes p' with
      | EmptyString => if Ascii.eqb c slash then EmptyString else String c EmptyString
      | r => String c r
      end
  end.

(** [path[i+1:]] for [i] the index of the last slash, the whole of [path]
    when it has none.  [seg] is the element read since the last slash. *)
Fixpoint lastElement (seg p : string) : string :=
  match p with
  | EmptyString => seg
  | String c p' =>
      if Ascii.eqb c slash then lastElement EmptyString p'
      else lastElement (seg ++ String c EmptyString) p'
  end.

(** [path.Base]: the last element of the path, trailing slashes removed;
    ["."] for the empty path, ["/"] for a path of slashes only. *)
Definition Base (p : string) : string :=
  if String.eqb p "" then "."
  else
    let p1 := stripTrailingSlashes p in
    let p2 := lastElement "" p1 in
    if String.eqb p2 "" then "/" else p2.

End path.

Module sha256.

Local Open Scope Z_scope.

Definition w32 (x : Z) : Z := x mod 2 ^ 32.

Definition rotr (n x : Z) : Z :=
  Z.lor (Z.shiftr x n) (w32 (Z.shiftl x (32 - n))).

Definition Ch (x y z : Z) : Z :=
  Z.lxor (Z.land x y) (Z.land (Z.lxor x (Z.ones 32)) z).
Definition Maj (x y z : Z) : Z :=
  Z.lxor (Z.lxor (Z.land x y) (Z.land x z)) (Z.land y z).
Definition bsig0 (x : Z) : Z := Z.lxor (Z.lxor (rotr 2 x) (rotr 13 x)) (rotr 22 x).
Definition bsig1 (x : Z) : Z := Z.lxor (Z.lxor (rotr 6 x) (rotr 11 x)) (rotr 25 x).
Definition ssig0 (x : Z) : Z := Z.lxor (Z.lxor (rotr 7 x) (rotr 18 x)) (Z.shiftr x 3).
Definition ssig1 (x : Z) : Z := Z.lxor (Z.lxor (rotr 17 x) (rotr 19 x)) (Z.shiftr x 10).

(** The first [n] primes, by trial division. *)
Definition is_prime (p : Z) : bool :=
  forallb (fun d => negb (p mod Z.of_nat d =? 0)) (seq 2 (Z.to_nat p - 2)).

Definition primes (n : nat) : list Z :=
  firstn n (filter is_prime (map Z.of_nat (seq 2 320))).

(** Integer cube root, one bit at a time from bit [b] down. *)
Fixpoint cbrt_bits (b : nat) (x r : Z) : Z :=
  let r' := r + 2 ^ Z.of_nat b in
  let r1 := if r' * r' * r' <=? x then r' else r in
  match b with
  | O => r1
  | S b' => cbrt_bits b' x r1
  end.

(** Round constants: the first 32 bits of the fractional parts of the cube
    roots of the first 64 primes. *)
Definition K : list Z :=
  Eval vm_compute in map (fun p => w32 (cbrt_bits 40 (p * 2 ^ 96) 0)) (primes 64).

(** Initial hash value: the first 32 bits of the fractional parts of the
    square roots of the first 8 primes. *)
Definition init : list Z :=
  Eval vm_compute in map (fun p => w32 (Z.sqrt (p * 2 ^ 64))) (primes 8).

(** Padding: the bit 1, zeros up to 56 mod 64 bytes, the bit length as a
    64-bit big-endian integer. *)
Definition be_bytes (n : nat) (x : Z) : list Z :=
  map (fun i => (x / 2 ^ (8 * Z.of_nat (n - 1 - i))) mod 256) (seq 0 n).

Definition pad (msg : list Z) : list Z :=
  let len := Z.of_nat (length msg) in
  let zeros := Z.to_nat ((55 - len) mod 64) in
  msg ++ [128] ++ repeat 0 zeros ++ be_bytes 8 ((8 * len) mod 2 ^ 64).

Fixpoint be_word (bs : list Z) (acc : Z) : Z :=
  match bs with
  | [] => acc
  | b :: bs' => be_word bs' (acc * 256 + b)
  end.

(** The sixteen big-endian words of a 64-byte block. *)
Fixpoint words (n : nat) (bs : list Z) : list Z :=
  match n with
  | O => []
  | S n' => be_word (firstn 4 bs) 0 :: words n' (skipn 4 bs)
  end.

(** Message schedule; [w] holds the words computed so far, newest first. *)
Fixpoint schedule (n : nat) (w : list Z) : list Z :=
  match n with
  | O => rev w
  | S n' =>
      let x := w32 (ssig1 (nth 1 w 0) + nth 6 w 0 + ssig0 (nth 14 w 0) + nth 15 w 0) in
      schedule n' (x :: w)
  end.

Definition round (st : list Z) (kw : Z * Z) : list Z :=
  match st with
  | [a; b; c; d; e; f; g; h] =>
      let t1 := h + bsig1 e + Ch e f g + fst kw + snd kw in
      let t2 := bsig0 a + Maj a b c in
      [w32 (t1 + t2); a; b; c; w32 (d + t1); e; f; g]
  | _ => st
  end.

Definition block (h : list Z) (bs : list Z) : list Z :=
  let w := schedule 48 (rev (words 16 bs)) in
  let st := fold_left round (combine K w) h in
  map (fun p => w32 (fst p + snd p)) (combine h st).

Fixpoint blocks (n : nat) (h : list Z) (bs : list Z) : list Z :=
  match n with
  | O => h
  | S n' => blocks n' (block h (firstn 64 bs)) (skipn 64 bs)
  end.

(** [sha256.Sum256]: the digest as its 32 bytes. *)
Definition Sum256 (data : list Z) : list Z :=
  let p := pad data in
  flat_map (be_bytes 4) (blocks (length p / 64) init p).

End sha256.

Module fmt.

Definition hexdigit (d : Z) : ascii :=
  nth (Z.to_nat d) (list_ascii_of_string "0123456789abcdef") "0"%char.

(** [fmt.Sprintf("%x", b)] for a byte array: two lower-case hexadecimal
    digits per byte. *)
Fixpoint hex (bs : list Z) : string :=
  match bs with
  | [] => EmptyString
  | b :: bs' => String (hexdigit (b / 16)) (String (hexdigit (b mod 16)) (hex bs'))
  end.

End fmt.

(** [[]byte(content)] *)
Definition bytes_of_string (s : string) : list Z :=
  map (fun c => Z.of_N (N_of_ascii c)) (list_ascii_of_string s).


(** ** Data model *)

(** [rss.RSSItem]: one entry of the feed. *)
Record RSSItem := mkItem {
  Title : string;
  Link : string;
  Content : string
}.

(** [config.Config]; [Interval] is a Go [int], in minutes. *)
Record Config := mkConfig {
  MastodonURL : string;
  MastodonAccessToken : string;
  GotifyURL : string;
  GotifyToken : string;
  Debug : bool;
  FeedURL : string;
  Interval : Z;
  Category : string;
  SkipPrefixCategories : list string;
  BlueskyHandle : string;
  BlueskyPassword : string;
  BlueskyPDS : string;
  ThreadsUserID : string;
  ThreadsToken : string
}.

Definition setInterval (conf : Config) (i : Z) : Config :=
  {| MastodonURL := MastodonURL conf;
     MastodonAccessToken := MastodonAccessToken conf;
     GotifyURL := GotifyURL conf;
     GotifyToken := GotifyToken conf;
     Debug := Debug conf;
     FeedURL := FeedURL conf;
     Interval := i;
     Category := Category conf;
     SkipPrefixCategories := SkipPrefixCategories conf;
     BlueskyHandle := BlueskyHandle conf;
     BlueskyPassword := BlueskyPassword conf;
     BlueskyPDS := BlueskyPDS conf;
     ThreadsUserID := ThreadsUserID conf;
     ThreadsToken := ThreadsToken conf |}.

(** A row of [tooted_posts]; the primary key [link] is the key of the map. *)
Record PostRecord := mkRecord {
  content_hash : string;
  timestamp : string
}.

(** A Go [error]: [None] is [nil], [Some msg] an error whose [Error()] is
    [msg]. *)
Definition error : Type := option string.

(** ** Effects

    Every call that leaves the orchestrator is an event, recorded with its
    outcome, in the order the calls are made. *)

Inductive Level := DebugLevel | InfoLevel | ErrorLevel | FatalLevel.

Inductive Event :=
| EvFetch (feedURL : string) (res : string + list RSSItem)
| EvOpen (err : error)
| EvCreateTable (err : error)
| EvQuery (link : string) (err : error)
| EvUpsert (link contentHash ts : string) (err : error)
| EvToot (mastodonURL mastodonToken content : string) (err : error)
| EvBluesky (handle password pds content : string) (err : error)
| EvThreads (userID token content : string) (err : error)
| EvGotify (title message : string) (err : error)
| EvLog (lvl : Level) (msg : string)
| EvSleep (nanoseconds : Z).

(** The world outside the process.  Each oracle sees the events so far and
    the request, and gives the outcome of the call. *)
Record Env := mkEnv {
  feed : list Event -> string -> string + list RSSItem;
  db_open : list Event -> error;
  db_fault : list Event -> error;
  mastodon_api : list Event -> string -> error;
  bluesky_api : list Event -> string -> error;
  threads_api : list Event -> string -> error;
  gotify_api : list Event -> string -> string -> error;
  clock : list Event -> string
}.

(** Process state: the table behind the global handle [db.DB], and the
    events so far. *)
Record State := mkState {
  rows : gmap string PostRecord;
  hist : list Event
}.

Definition M (A : Type) : Type := Env -> State -> A * State.

#[global] Instance M_ret : MRet M := fun A (x : A) _ st => (x, st).
#[global] Instance M_bind : MBind M :=
  fun A B (f : A -> M B) (m : M A) env st =>
    let (a, st') := m env st in f a env st'.

Definition emit (e : Event) : M unit :=
  fun _ st => (tt, {| rows := rows st; hist := hist st ++ [e] |}).

Definition ask {A : Type} (oracle : Env -> list Event -> A) : M A :=
  fun env st => (oracle env (hist st), st).

Definition getRows : M (gmap string PostRecord) :=
  fun _ st => (rows st, st).

Definition setRows (t : gmap string PostRecord) : M unit :=
  fun _ st => (tt, {| rows := t; hist := hist st |}).

(** The state after running [m], and the events [m] added. *)
Definition exec {A : Type} (m : M A) (env : Env) (st : State) : State :=
  snd (m env st).

Definition emitted {A : Type} (m : M A) (env : Env) (st : State) : list Event :=
  drop (length (hist st)) (hist (exec m env st)).

(** logrus: [Printf] logs at the info level; [Error], [Fatal] print their
    operands as [fmt.Sprint] does. *)
Module log.
Definition Debugf (msg : string) : M unit := emit (EvLog DebugLevel msg).
Definition Printf (msg : string) : M unit := emit (EvLog InfoLevel msg).
Definition Info (msg : string) : M unit := emit (EvLog InfoLevel msg).
Definition Infof (msg : string) : M unit := emit (EvLog InfoLevel msg).
Definition Error (msg : string) : M unit := emit (EvLog ErrorLevel msg).
Definition Errorf (msg : string) : M unit := emit (EvLog ErrorLevel msg).
Definition Fatal (msg : string) : M unit := emit (EvLog FatalLevel msg).
End log.

(** ** internal/rss *)

Module rss.

(** [HashContent]: the SHA-256 digest of the content bytes. *)
Definition HashContent (content : string) : list Z :=
  sha256.Sum256 (bytes_of_string content).

(** [CheckRSSFeed]: the HTTP GET and the XML decoding are the feed
    server's answer. *)
Definition CheckRSSFeed (feedURL : string) : M (string + list RSSItem) :=
  r ← ask (fun env h => feed env h feedURL);
  emit (EvFetch feedURL r);;
  mret r.

End rss.

(** ** internal/db *)

Module db.

(** [InitDB]: open the file and [CREATE TABLE IF NOT EXISTS]; the rows of
    an existing table stay.  [false] when [log.Fatal] ended the process. *)
Definition InitDB : M bool :=
  err ← ask db_open;
  emit (EvOpen err);;
  match err with
  | Some e => log.Fatal ("Failed to open database:" ++ e);; mret false
  | None =>
      err ← ask db_fault;
      emit (EvCreateTable err);;
      match err with
      | Some e => log.Fatal ("Failed to create table:" ++ e);; mret false
      | None => mret true
      end
  end.

(** [StoreTootedPost]: [INSERT OR REPLACE INTO tooted_posts]. *)
Definition StoreTootedPost (link content : string) : M error :=
  let contentHash := rss.HashContent content in
  now ← ask clock;
  err ← ask db_fault;
  emit (EvUpsert link (fmt.hex contentHash) now err);;
  match err with
  | Some _ => mret err
  | None =>
      t ← getRows;
      setRows (<[link := mkRecord (fmt.hex contentHash) now]> t);;
      mret None
  end.

(** [HasPostChanged]: [SELECT content_hash FROM tooted_posts WHERE link = ?]
    and the comparison with the hash of [content]. *)
Definition HasPostChanged (link content : string) : M (bool * bool * error) :=
  err ← ask db_fault;
  emit (EvQuery link err);;
  match err with
  | Some e => mret (false, false, Some e)
  | None =>
      t ← getRows;
      match t !! link with
      | None => mret (false, false, None)
      | Some r =>
          let storedHash := content_hash r in
          let newHash := fmt.hex (rss.HashContent content) in
          if negb (String.eqb storedHash newHash) then mret (true, true, None)
          else mret (true, false, None)
      end
  end.

End db.

(** ** internal/mastodon *)

Module mastodon.

(** [GetTootContent] *)
Fixpoint GetTootContent (post : RSSItem) (skipPrefixCategories : list string) : string :=
  match skipPrefixCategories with
  | [] => "New blog post: " ++ Link post
  | cat :: cats =>
      if strings.HasPrefix (Title post) cat
      then Content post ++ " - " ++ Link post
      else GetTootContent post cats
  end.

(** [TootPost]: the credential check, then the POST to
    [/api/v1/statuses], whose outcome is the server's. *)
Definition TootPost (mastodonURL mastodonToken content : string) : M error :=
  err ← (if String.eqb mastodonURL "" || String.eqb mastodonToken ""
         then mret (Some "mastodon URL and token must be set")
         else ask (fun env h => mastodon_api env h content));
  emit (EvToot mastodonURL mastodonToken content err);;
  mret err.

End mastodon.

(** ** internal/bluesky *)

Module bluesky.

(** [Post]: the credential check, then create-session and create-record
    as one exchange. *)
Definition Post (handle password pds content : string) : M error :=
  err ← (if String.eqb handle "" || String.eqb password ""
         then mret (Some "bluesky handle and password are required")
         else ask (fun env h => bluesky_api env h content));
  emit (EvBluesky handle password pds content err);;
  mret err.

End bluesky.

(** ** internal/threads *)

Module threads.

(** [Post]: the credential check, then create-container and publish as
    one exchange. *)
Definition Post (userID token content : string) : M error :=
  err ← (if String.eqb userID "" || String.eqb token ""
         then mret (Some "threads user ID and token are required")
         else ask (fun env h => threads_api env h content));
  emit (EvThreads userID token content err);;
  mret err.

End threads.

(** ** internal/gotify *)

Module gotify.

(** [sendGotifyNotification] *)
Definition sendGotifyNotification (conf : Config) (title message : string) : M error :=
  err ← (if String.eqb (GotifyURL conf) "" || String.eqb (GotifyToken conf) ""
         then mret (Some "gotify URL or token is not configured")
         else ask (fun env h => gotify_api env h title message));
  emit (EvGotify title message err);;
  mret err.

(** [logFailure]: log, and notify when Gotify is configured. *)
Definition logFailure (message err : string) (conf : Config) : M unit :=
  log.Printf (message ++ ": " ++ err);;
  if negb (String.eqb (GotifyURL conf) "") && negb (String.eqb (GotifyToken conf) "")
  then
    e ← sendGotifyNotification conf message err;
    match e with
    | Some e' => log.Printf ("Error sending Gotify notification: " ++ e')
    | None => mret tt
    end
  else mret tt.

End gotify.

(** ** internal/rss2socials *)

Module rss2socials.

(** Go's [int64] wrap-around, and [time.Minute] in nanoseconds. *)
Definition wrap64 (x : Z) : Z := ((x + 2 ^ 63) mod 2 ^ 64 - 2 ^ 63)%Z.
Definition Minute : Z := 60000000000%Z.

(** [time.Sleep(d)]; it returns at once when [d <= 0]. *)
Definition Sleep (d : Z) : M unit := emit (EvSleep d).

(** [handlePost] *)
Definition handlePost (post : RSSItem) (conf : Config) : M unit :=
  '(exists_, updated, err) ← db.HasPostChanged (Link post) (Content post);
  match err with
  | Some e => log.Error ("Database error: " ++ e)
  | None =>
      sw ← (if exists_ && updated then
              log.Printf ("Post has been updated: " ++ Title post);;
              mret (Some (("Blog post has been updated: " ++ Link post)%string, true))
            else if negb exists_ then
              mret (Some (mastodon.GetTootContent post (SkipPrefixCategories conf), false))
            else mret None);
      match sw with
      | None => mret tt
      | Some (tootContent, isUpdate) =>
          err ← mastodon.TootPost (MastodonURL conf) (MastodonAccessToken conf) tootContent;
          match err with
          | Some e =>
              if isUpdate : bool then log.Error ("Failed to toot updated post: " ++ e)
              else log.Printf ("Failed to toot new post: " ++ e)
          | None =>
              err ← db.StoreTootedPost (Link post) (Content post);
              match err with
              | Some e => log.Error ("Storing post toot in database failed: " ++ e)
              | None => mret tt
              end;;
              (if negb (String.eqb (BlueskyHandle conf) "")
                  && negb (String.eqb (BlueskyPassword conf) "")
               then
                 log.Infof ("Posting to Bluesky: " ++ Title post);;
                 err ← bluesky.Post (BlueskyHandle conf) (BlueskyPassword conf)
                                    (BlueskyPDS conf) tootContent;
                 match err with
                 | Some e => log.Errorf ("Failed to post to Bluesky: " ++ e)
                 | None => log.Info "Successfully posted to Bluesky"
                 end
               else mret tt);;
              (if negb (String.eqb (ThreadsUserID conf) "")
                  && negb (String.eqb (ThreadsToken conf) "")
               then
                 log.Infof ("Posting to Threads: " ++ Title post);;
                 err ← threads.Post (ThreadsUserID conf) (ThreadsToken conf) tootContent;
                 match err with
                 | Some e => log.Errorf ("Failed to post to Threads: " ++ e)
                 | None => log.Info "Successfully posted to Threads"
                 end
               else mret tt)
          end
      end
  end.

(** The body of [for _, post := range posts]: the category filter, then
    [handlePost]. *)
Definition processPost (post : RSSItem) (conf : Config) : M unit :=
  if negb (String.eqb (Category conf) "") then
    let lastSegment := path.Base (Link post) in
    if negb (strings.Contains lastSegment (Category conf)) then
      log.Debugf ("Skipping post " ++ Title post ++ ": category filter '"
                  ++ Category conf ++ "' not in URL segment '" ++ lastSegment ++ "'")
    else handlePost post conf
  else handlePost post conf.

Fixpoint processPosts (posts : list RSSItem) (conf : Config) : M unit :=
  match posts with
  | [] => mret tt
  | post :: rest => processPost post conf;; processPosts rest conf
  end.

(** One pass of the [for] loop of [Run].  On a fetch error the [continue]
    starts the next pass at once: the [time.Sleep] at the end of the body
    is not reached. *)
Definition cycle (conf : Config) : M unit :=
  r ← rss.CheckRSSFeed (FeedURL conf);
  match r with
  | inl err => log.Printf ("Error fetching RSS feed: " ++ err)
  | inr posts =>
      processPosts posts conf;;
      Sleep (wrap64 (Interval conf * Minute))
  end.

Fixpoint loop (n : nat) (conf : Config) : M unit :=
  match n with
  | O => mret tt
  | S n' => cycle conf;; loop n' conf
  end.

(** [Run], for the first [n] passes of its endless loop. *)
Definition Run (conf : Config) (n : nat) : M unit :=
  if String.eqb (FeedURL conf) "" then log.Fatal "RSS feed URL is required"
  else
    conf' ← (if (Interval conf <=? 0)%Z then
               log.Error "Interval must be a positive integer";;
               mret (setInterval conf 60)
             else mret conf);
    ok ← db.InitDB;
    if ok : bool then loop n conf' else mret tt.

End rss2socials.

(** ** Vocabulary of the statements *)

(** The text stored and compared by [internal/db]:
    [fmt.Sprintf("%x", rss.HashContent(content))]. *)
Definition fingerprint (content : string) : string :=
  fmt.hex (rss.HashContent content).

(** The pair [(exists, updated)] that [db.HasPostChanged] reads off a table
    when its query succeeds. *)
Definition classification (t : gmap string PostRecord) (link content : string)
  : bool * bool :=
  match t !! link with
  | None => (false, false)
  | Some r =>
      if negb (String.eqb (content_hash r) (fingerprint content))
      then (true, true) else (true, false)
  end.

Definition is_record (ev : Event) : bool :=
  match ev with EvUpsert _ _ _ _ => true | _ => false end.

Definition is_primary (ev : Event) : bool :=
  match ev with EvToot _ _ _ _ => true | _ => false end.

Definition is_secondary (ev : Event) : bool :=
  match ev with
  | EvBluesky _ _ _ _ _ | EvThreads _ _ _ _ => true
  | _ => false
  end.

Definition is_alert (ev : Event) : bool :=
  match ev with EvGotify _ _ _ => true | _ => false end.

Definition is_sleep (ev : Event) : bool :=
  match ev with EvSleep _ => true | _ => false end.

Definition is_log (ev : Event) : bool :=
  match ev with EvLog _ _ => true | _ => false end.

(** A call that reaches the store or a publisher. *)
Definition is_item_effect (ev : Event) : bool :=
  match ev with
  | EvQuery _ _ | EvUpsert _ _ _ _ | EvToot _ _ _ _
  | EvBluesky _ _ _ _ _ | EvThreads _ _ _ _ | EvGotify _ _ _ => true
  | _ => false
  end.

Section HandlePostEvents.

Variables (post : RSSItem) (conf : Config).

Definition blueskyConfigured : bool :=
  negb (String.eqb (BlueskyHandle conf) "") && negb (String.eqb (BlueskyPassword conf) "").

Definition threadsConfigured : bool :=
  negb (String.eqb (ThreadsUserID conf) "") && negb (String.eqb (ThreadsToken conf) "").

(** The log line of the [exists && updated] case of the [switch]. *)
Definition updateLog (isUpdate : bool) : list Event :=
  if isUpdate then [EvLog InfoLevel ("Post has been updated: " ++ Title post)] else [].

(** The log line after a failed [mastodon.TootPost]. *)
Definition tootFailureLog (isUpdate : bool) (e : string) : Event :=
  if isUpdate then EvLog ErrorLevel ("Failed to toot updated post: " ++ e)
  else EvLog InfoLevel ("Failed to toot new post: " ++ e).

(** The log line after [db.StoreTootedPost]. *)
Definition storeLog (rerr : error) : list Event :=
  match rerr with
  | Some e => [EvLog ErrorLevel ("Storing post toot in database failed: " ++ e)]
  | None => []
  end.

(** The events of the Bluesky block, for the outcome [berr] of the post. *)
Definition blueskyEvents (text : string) (berr : error) : list Event :=
  if blueskyConfigured then
    [ EvLog InfoLevel ("Posting to Bluesky: " ++ Title post);
      EvBluesky (BlueskyHandle conf) (BlueskyPassword conf) (BlueskyPDS conf) text berr;
      match berr with
      | Some e => EvLog ErrorLevel ("Failed to post to Bluesky: " ++ e)
      | None => EvLog InfoLevel "Successfully posted to Bluesky"
      end ]
  else [].

(** The events of the Threads block, for the outcome [terr] of the post. *)
Definition threadsEvents (text : string) (terr : error) : list Event :=
  if threadsConfigured then
    [ EvLog InfoLevel ("Posting to Threads: " ++ Title post);
      EvThreads (ThreadsUserID conf) (ThreadsToken conf) text terr;
      match terr with
      | Some e => EvLog ErrorLevel ("Failed to post to Threads: " ++ e)
      | None => EvLog InfoLevel "Successfully posted to Threads"
      end ]
  else [].

(** The text handed to the publishers: the [switch] of [handlePost]. *)
Definition tootContent (isUpdate : bool) : string :=
  if isUpdate then "Blog post has been updated: " ++ Link post
  else mastodon.GetTootContent post (SkipPrefixCategories conf).

End HandlePostEvents.

(** The four ways through [handlePost]: the lookup fails; the post is
    unchanged; the toot fails; the toot succeeds. *)
Definition handlePost_shape (post : RSSItem) (conf : Config)
    (t : gmap string PostRecord) (evs : list Event) (t' : gmap string PostRecord) : Prop :=
  let link := Link post in
  (exists e,
      evs = [EvQuery link (Some e); EvLog ErrorLevel ("Database error: " ++ e)]
      /\ t' = t)
  \/ (evs = [EvQuery link None]
      /\ t' = t
      /\ classification t link (Content post) = (true, false))
  \/ (exists isUpdate e,
      classification t link (Content post) = (isUpdate, isUpdate)
      /\ evs = [EvQuery link None] ++ updateLog post isUpdate
               ++ [EvToot (MastodonURL conf) (MastodonAccessToken conf)
                          (tootContent post conf isUpdate) (Some e);
                   tootFailureLog isUpdate e]
      /\ t' = t)
  \/ (exists isUpdate now rerr berr terr,
      classification t link (Content post) = (isUpdate, isUpdate)
      /\ evs = [EvQuery link None] ++ updateLog post isUpdate
               ++ [EvToot (MastodonURL conf) (MastodonAccessToken conf)
                          (tootContent post conf isUpdate) None;
                   EvUpsert link (fingerprint (Content post)) now rerr]
               ++ storeLog rerr
               ++ blueskyEvents post conf (tootContent post conf isUpdate) berr
               ++ threadsEvents post conf (tootContent post conf isUpdate) terr
      /\ t' = match rerr with
              | None => <[link := mkRecord (fingerprint (Content post)) now]> t
              | Some _ => t
              end).

(** The formatter as the specification words it: [format(item,
    skipPrefixCategories, isUpdate)]. *)
Definition format_spec (item : RSSItem) (skipPrefixCategories : list string)
    (isUpdate : bool) : string :=
  if isUpdate then "Blog post has been updated: " ++ Link item
  else if existsb (fun cat => String.prefix cat (Title item)) skipPrefixCategories
       then Content item ++ " - " ++ Link item
       else "New blog post: " ++ Link item.

(** [m] only adds events to the history. *)
Definition grows {A : Type} (m : M A) : Prop :=
  forall env st, hist (exec m env st) = hist st ++ emitted m env st.

(** Every sleep among [evs] lasts [d] nanoseconds. *)
Definition sleeps_are (d : Z) (evs : list Event) : Prop :=
  forall x, In (EvSleep x) evs -> x = d.

(** The events of a pass whose fetch fails with [err]. *)
Definition failedFetch (conf : Config) (err : string) : list Event :=
  [EvFetch (FeedURL conf) (inl err);
   EvLog InfoLevel ("Error fetching RSS feed: " ++ err)].


(** ** Scenarios *)

Definition st0 : State := mkState ∅ [].

Definition p_new : RSSItem := mkItem "Thoughts on X" "L" "body".

Definition p_other : RSSItem := mkItem "Other" "https://x.com/a/other-post" "text".

Definition conf_demo : Config :=
  {| MastodonURL := "https://m.example";
     MastodonAccessToken := "tok";
     GotifyURL := "http://gotify";
     GotifyToken := "token";
     Debug := false;
     FeedURL := "https://x.com/feed";
     Interval := 60;
     Category := "";
     SkipPrefixCategories := ["Thoughts"];
     BlueskyHandle := "me.bsky.social";
     BlueskyPassword := "app-password";
     BlueskyPDS := "https://bsky.social";
     ThreadsUserID := "42";
     ThreadsToken := "threads-token" |}.


Definition conf_tech : Config :=
  {| MastodonURL := "https://m.example";
     MastodonAccessToken := "tok";
     GotifyURL := "http://gotify";
     GotifyToken := "token";
     Debug := false;
     FeedURL := "https://x.com/feed";
     Interval := 60;
     Category := "tech";
     SkipPrefixCategories := ["Thoughts"];
     BlueskyHandle := "";
     BlueskyPassword := "";
     BlueskyPDS := "https://bsky.social";
     ThreadsUserID := "";
     ThreadsToken := "" |}.

(** Everything answers. *)
Definition env_ok : Env :=
  {| feed := fun _ _ => inr [p_new];
     db_open := fun _ => None;
     db_fault := fun _ => None;
     mastodon_api := fun _ _ => None;
     bluesky_api := fun _ _ => None;
     threads_api := fun _ _ => None;
     gotify_api := fun _ _ _ => None;
     clock := fun _ => "2024-05-01T10:00:00Z" |}.

(** Mastodon answers 500. *)
Definition env_mastodon_down : Env :=
  {| feed := fun _ _ => inr [p_new];
     db_open := fun _ => None;
     db_fault := fun _ => None;
     mastodon_api := fun _ _ => Some "unexpected HTTP status: 500";
     bluesky_api := fun _ _ => None;
     threads_api := fun _ _ => None;
     gotify_api := fun _ _ _ => None;
     clock := fun _ => "2024-05-01T10:00:00Z" |}.

(** Bluesky refuses the session. *)
Definition env_bluesky_down : Env :=
  {| feed := fun _ _ => inr [p_new];
     db_open := fun _ => None;
     db_fault := fun _ => None;
     mastodon_api := fun _ _ => None;
     bluesky_api := fun _ _ => Some "failed to create session: status code 401";
     threads_api := fun _ _ => None;
     gotify_api := fun _ _ _ => None;
     clock := fun _ => "2024-05-01T10:00:00Z" |}.



(** The feed server is unreachable. *)
Definition env_feed_down : Env :=
  {| feed := fun _ _ => inl "HTTP request failed: connection refused";
     db_open := fun _ => None;
     db_fault := fun _ => None;
     mastodon_api := fun _ _ => None;
     bluesky_api := fun _ _ => None;
     threads_api := fun _ _ => None;
     gotify_api := fun _ _ _ => None;
     clock := fun _ => "2024-05-01T10:00:00Z" |}.

(** ** Vocabulary of the further properties *)

Definition is_query (ev : Event) : bool :=
  match ev with EvQuery _ _ => true | _ => false end.

Definition is_fetch (ev : Event) : bool :=
  match ev with EvFetch _ _ => true | _ => false end.

Definition is_fetch_ok (ev : Event) : bool :=
  match ev with EvFetch _ (inr _) => true | _ => false end.

Definition is_bluesky (ev : Event) : bool :=
  match ev with EvBluesky _ _ _ _ _ => true | _ => false end.

Definition is_threads (ev : Event) : bool :=
  match ev with EvThreads _ _ _ _ => true | _ => false end.

(** The links looked up in the table, in order. *)
Definition lookups (evs : list Event) : list string :=
  flat_map (fun ev => match ev with EvQuery link _ => [link] | _ => [] end) evs.

(** The condition under which the loop of [Run] hands a post to
    [handlePost]. *)
Definition passes_filter (conf : Config) (post : RSSItem) : bool :=
  String.eqb (Category conf) ""
  || strings.Contains (path.Base (Link post)) (Category conf).

(** The text a publisher was called with. *)
Definition event_text (ev : Event) : option string :=
  match ev with
  | EvToot _ _ text _ | EvBluesky _ _ _ text _ | EvThreads _ _ text _ => Some text
  | _ => None
  end.

(** A call to Bluesky or Threads carries both of its credentials. *)
Definition has_credentials (ev : Event) : bool :=
  match ev with
  | EvBluesky handle password _ _ _ =>
      negb (String.eqb handle "") && negb (String.eqb password "")
  | EvThreads userID token _ _ =>
      negb (String.eqb userID "") && negb (String.eqb token "")
  | _ => true
  end.

(** Every store comes right after a toot that succeeded. *)
Definition store_follows_toot (evs : list Event) : Prop :=
  forall pre link hash now r rest,
    evs = pre ++ EvUpsert link hash now r :: rest ->
    exists pre' url token text, pre = pre' ++ [EvToot url token text None].

(** A byte. *)
Definition is_byte (b : Z) : Prop := (0 <= b < 256)%Z.

(** The configuration the loop of [Run] runs with. *)
Definition effective (conf : Config) : Config :=
  if (Interval conf <=? 0)%Z then setInterval conf 60 else conf.

(** The error of [mastodon.TootPost] without credentials. *)
Definition no_mastodon_credentials : string := "mastodon URL and token must be set".

(** The events the loop of [Run] makes itself, outside [handlePost]. *)
Definition is_loop_event (ev : Event) : bool :=
  match ev with
  | EvFetch _ _ | EvLog _ _ | EvSleep _ => true
  | _ => false
  end.

(** The string has a slash in it. *)
Fixpoint has_slash (s : string) : bool :=
  match s with
  | EmptyString => false
  | String c s' => Ascii.eqb c path.slash || has_slash s'
  end.

(** ** Further scenarios *)

Definition p_edited : RSSItem := mkItem "Thoughts on X" "L" "body, edited".

Definition p_tech : RSSItem := mkItem "Tech" "https://x.com/a/tech-post" "text".

Definition setMastodonURL (conf : Config) (url : string) : Config :=
  {| MastodonURL := url;
     MastodonAccessToken := MastodonAccessToken conf;
     GotifyURL := GotifyURL conf;
     GotifyToken := GotifyToken conf;
     Debug := Debug conf;
     FeedURL := FeedURL conf;
     Interval := Interval conf;
     Category := Category conf;
     SkipPrefixCategories := SkipPrefixCategories conf;
     BlueskyHandle := BlueskyHandle conf;
     BlueskyPassword := BlueskyPassword conf;
     BlueskyPDS := BlueskyPDS conf;
     ThreadsUserID := ThreadsUserID conf;
     ThreadsToken := ThreadsToken conf |}.

Definition setFeedURL (conf : Config) (url : string) : Config :=
  {| MastodonURL := MastodonURL conf;
     MastodonAccessToken := MastodonAccessToken conf;
     GotifyURL := GotifyURL conf;
     GotifyToken := GotifyToken conf;
     Debug := Debug conf;
     FeedURL := url;
     Interval := Interval conf;
     Category := Category conf;
     SkipPrefixCategories := SkipPrefixCategories conf;
     BlueskyHandle := BlueskyHandle conf;
     BlueskyPassword := BlueskyPassword conf;
     BlueskyPDS := BlueskyPDS conf;
     ThreadsUserID := ThreadsUserID conf;
     ThreadsToken := ThreadsToken conf |}.

Definition conf_no_mastodon : Config := setMastodonURL conf_demo "".

Definition conf_no_feed : Config := setFeedURL conf_demo "".

Definition conf_overflow : Config := setInterval conf_demo 153722868.

(** Gotify answers 500. *)
Definition env_gotify_down : Env :=
  {| feed := fun _ _ => inr [p_new];
     db_open := fun _ => None;
     db_fault := fun _ => None;
     mastodon_api := fun _ _ => None;
     bluesky_api := fun _ _ => None;
     threads_api := fun _ _ => None;
     gotify_api := fun _ _ _ => Some "gotify returned non-OK status: 500 Internal Server Error";
     clock := fun _ => "2024-05-01T10:00:00Z" |}.

(** ** Properties *)

(** *** The library functions on known values *)

Example sha_abc :
  fmt.hex (sha256.Sum256 (bytes_of_string "abc"))
  = "ba7816bf8f01cfea414140de5dae2223b00361a396177a9cb410ff61f20015ad".
Proof. vm_compute. reflexivity. Qed.

Example sha_empty :
  fmt.hex (sha256.Sum256 (bytes_of_string ""))
  = "e3b0c44298fc1c149afbf4c8996fb92427ae41e4649b934ca495991b7852b855".
Proof. vm_compute. reflexivity. Qed.

Example sha_two_blocks :
  fmt.hex (sha256.Sum256 (bytes_of_string
     "abcdbcdecdefdefgefghfghighijhijkijkljklmklmnlmnomnopnopq"))
  = "248d6a61d20638b8e5c026930c3e6039a33ce45964ff2167f6ecedd419db06c1".
Proof. vm_compute. reflexivity. Qed.

Example base_tech : path.Base "https://x.com/a/tech-post" = "tech-post".
Proof. reflexivity. Qed.
Example base_trailing : path.Base "https://x.com/a/" = "a".
Proof. reflexivity. Qed.
Example base_empty : path.Base "" = ".".
Proof. reflexivity. Qed.
Example base_slashes : path.Base "///" = "/".
Proof. reflexivity. Qed.

Example contains_empty : strings.Contains "tech-post" "" = true.
Proof. reflexivity. Qed.

Example wrap64_overflow :
  rss2socials.wrap64 (153722868 * rss2socials.Minute) = (-9223371993709551616)%Z.
Proof. vm_compute. reflexivity. Qed.

Arguments rss.HashContent : simpl never.
Arguments fmt.hex : simpl never.
Arguments mastodon.GetTootContent : simpl never.
Arguments String.append : simpl never.

Ltac run_m :=
  unfold log.Debugf, log.Printf, log.Info, log.Infof, log.Error, log.Errorf, log.Fatal;
  unfold mbind, M_bind, mret, M_ret, emit, ask, getRows, setRows;
  simpl.

Lemma drop_hist (h evs : list Event) : drop (length h) (h ++ evs) = evs.
Proof. apply drop_app_length. Qed.

Arguments db.HasPostChanged : simpl never.
Arguments db.StoreTootedPost : simpl never.
Arguments mastodon.TootPost : simpl never.
Arguments bluesky.Post : simpl never.
Arguments threads.Post : simpl never.
Arguments rss2socials.handlePost : simpl never.

(** What each callee of [handlePost] does to the state. *)
Lemma HasPostChanged_run link content env st :
  db.HasPostChanged link content env st
  = (match db_fault env (hist st) with
     | Some e => (false, false, Some e)
     | None => (classification (rows st) link content, None)
     end,
     mkState (rows st) (hist st ++ [EvQuery link (db_fault env (hist st))])).
Proof.
  unfold db.HasPostChanged, classification, fingerprint. run_m.
  destruct (db_fault env (hist st)) as [e|]; [reflexivity|]. simpl.
  destruct (rows st !! link) as [r|]; [|reflexivity]. simpl.
  destruct (negb _); reflexivity.
Qed.

Lemma StoreTootedPost_run link content env st :
  exists now rerr,
    db.StoreTootedPost link content env st
    = (rerr,
       mkState (match rerr with
                | None => <[link := mkRecord (fingerprint content) now]> (rows st)
                | Some _ => rows st
                end)
               (hist st ++ [EvUpsert link (fingerprint content) now rerr])).
Proof.
  unfold db.StoreTootedPost, fingerprint. run_m.
  exists (clock env (hist st)), (db_fault env (hist st)).
  destruct (db_fault env (hist st)); reflexivity.
Qed.

Lemma TootPost_run url token content env st :
  exists err,
    mastodon.TootPost url token content env st
    = (err, mkState (rows st) (hist st ++ [EvToot url token content err])).
Proof.
  unfold mastodon.TootPost. run_m.
  destruct (_ || _); simpl; eexists; reflexivity.
Qed.

Lemma bluesky_Post_run handle password pds content env st :
  exists err,
    bluesky.Post handle password pds content env st
    = (err, mkState (rows st) (hist st ++ [EvBluesky handle password pds content err])).
Proof.
  unfold bluesky.Post. run_m.
  destruct (_ || _); simpl; eexists; reflexivity.
Qed.

Lemma threads_Post_run userID token content env st :
  exists err,
    threads.Post userID token content env st
    = (err, mkState (rows st) (hist st ++ [EvThreads userID token content err])).
Proof.
  unfold threads.Post. run_m.
  destruct (_ || _); simpl; eexists; reflexivity.
Qed.

Ltac step_callee :=
  match goal with
  | |- context [mastodon.TootPost ?u ?t ?c ?env ?st] =>
      let e := fresh "terr" in
      destruct (TootPost_run u t c env st) as [e ->]; simpl
  | |- context [db.StoreTootedPost ?l ?c ?env ?st] =>
      let n := fresh "now" in let e := fresh "rerr" in
      destruct (StoreTootedPost_run l c env st) as (n & e & ->); simpl
  | |- context [bluesky.Post ?a ?b ?c ?d ?env ?st] =>
      let e := fresh "berr" in
      destruct (bluesky_Post_run a b c d env st) as [e ->]; simpl
  | |- context [threads.Post ?a ?b ?c ?env ?st] =>
      let e := fresh "therr" in
      destruct (threads_Post_run a b c env st) as [e ->]; simpl
  end.

Ltac leaf := rewrite <- ?app_assoc; simpl; eexists _, _; split; [reflexivity|].

Lemma handlePost_run env post conf st :
  exists evs t',
    rss2socials.handlePost post conf env st = (tt, mkState t' (hist st ++ evs))
    /\ handlePost_shape post conf (rows st) evs t'.
Proof.
  destruct st as [t h].
  unfold rss2socials.handlePost, handlePost_shape. run_m.
  rewrite HasPostChanged_run. simpl.
  destruct (db_fault env h) as [e|] eqn:Hq; simpl.
  - leaf. left. eauto.
  - destruct (classification t (Link post) (Content post)) as [ex up] eqn:Hc.
    assert (Hshape : (ex, up) = (true, false) \/ ex = up).
    { unfold classification in Hc. destruct (t !! Link post); [|inversion Hc; auto].
      destruct (negb _); inversion Hc; auto. }
    destruct Hshape as [Hs | ->].
    + inversion Hs; subst. simpl. leaf. right; left. auto.
    + change (negb (BlueskyHandle conf =? "") && negb (BlueskyPassword conf =? ""))
        with (blueskyConfigured conf).
      change (negb (ThreadsUserID conf =? "") && negb (ThreadsToken conf =? ""))
        with (threadsConfigured conf).
      destruct up; simpl; step_callee.
      all: destruct terr as [e|]; run_m;
        [ leaf; right; right; left; eexists _, e; repeat split; reflexivity | ].
      all: step_callee; destruct rerr as [re|] eqn:Hrerr; simpl.
      all: destruct (blueskyConfigured conf) eqn:Hb; simpl;
        [ step_callee; destruct berr as [be|] eqn:Hberr; simpl
        | pose (berr := @None string) ].
      all: destruct (threadsConfigured conf) eqn:Ht; simpl;
        [ step_callee; destruct therr as [te|] eqn:Htherr; simpl
        | pose (therr := @None string) ].
      all: leaf; right; right; right; eexists _, now, rerr, berr, therr;
        unfold blueskyEvents, threadsEvents; rewrite Hb, Ht; subst;
        repeat split; reflexivity.
Qed.

Lemma handlePost_emitted env post conf st :
  hist (exec (rss2socials.handlePost post conf) env st)
  = hist st ++ emitted (rss2socials.handlePost post conf) env st
  /\ handlePost_shape post conf (rows st)
       (emitted (rss2socials.handlePost post conf) env st)
       (rows (exec (rss2socials.handlePost post conf) env st)).
Proof.
  destruct (handlePost_run env post conf st) as (evs & t' & Hrun & Hshape).
  unfold emitted, exec. rewrite Hrun. simpl. rewrite drop_hist. auto.
Qed.

(** Sequencing: the events of [m ≫= k] are those of [m], then those of [k]. *)
Lemma emitted_bind {A B : Type} (m : M A) (k : A -> M B) env st :
  grows m -> (forall a, grows (k a)) ->
  emitted (m ≫= k) env st
  = emitted m env st ++ emitted (k (m env st).1) env (exec m env st)
  /\ exec (m ≫= k) env st = exec (k (m env st).1) env (exec m env st).
Proof.
  intros Hm Hk.
  assert (He : exec (m ≫= k) env st = exec (k (m env st).1) env (exec m env st)).
  { unfold exec, mbind, M_bind. destruct (m env st) as [a st1]. reflexivity. }
  split; [|exact He].
  unfold emitted at 1. rewrite He, Hk, Hm, <- app_assoc. apply drop_hist.
Qed.

Lemma grows_bind {A B : Type} (m : M A) (k : A -> M B) :
  grows m -> (forall a, grows (k a)) -> grows (m ≫= k).
Proof.
  intros Hm Hk env st.
  destruct (emitted_bind m k env st Hm Hk) as [-> ->].
  rewrite Hk, Hm, app_assoc. reflexivity.
Qed.

Lemma grows_ret {A : Type} (x : A) : grows (mret x).
Proof. intros env st. unfold emitted, exec. simpl. rewrite drop_all, app_nil_r. reflexivity. Qed.

Lemma grows_emit ev : grows (emit ev).
Proof. intros env st. unfold emitted, exec, emit. simpl. rewrite drop_hist. reflexivity. Qed.

Lemma grows_handlePost post conf : grows (rss2socials.handlePost post conf).
Proof. intros env st. apply handlePost_emitted. Qed.

(** *** The change store *)

Lemma HasPostChanged_rows link content env st :
  rows (exec (db.HasPostChanged link content) env st) = rows st.
Proof. unfold exec. rewrite HasPostChanged_run. reflexivity. Qed.

Lemma HasPostChanged_ok link content env st :
  db_fault env (hist st) = None ->
  (db.HasPostChanged link content env st).1
  = (classification (rows st) link content, None).
Proof. intros Hok. rewrite HasPostChanged_run, Hok. reflexivity. Qed.

Lemma StoreTootedPost_success link content env st :
  (db.StoreTootedPost link content env st).1 = None ->
  exists now,
    rows (exec (db.StoreTootedPost link content) env st)
    = <[link := mkRecord (fingerprint content) now]> (rows st).
Proof.
  unfold exec. destruct (StoreTootedPost_run link content env st) as (now & rerr & ->).
  simpl. intros ->. exists now. reflexivity.
Qed.

(** C2. [db.HasPostChanged] is a lookup: it leaves the table as it is; when
    the query succeeds it answers (false, false) for a link without a row,
    (true, true) for a row whose stored fingerprint differs from the
    fingerprint of the content, (true, false) for a row whose fingerprint is
    equal.  After [db.StoreTootedPost link c1] has succeeded, the answer is
    (true, false) for [link] and [c1], (true, true) for [link] and a content
    [c2] that the fingerprint tells apart from [c1], and (false, false) for
    another link that was never stored. *)
Theorem C2_HasPostChanged_postcondition :
  (forall env st link content,
      rows (exec (db.HasPostChanged link content) env st) = rows st)
  /\ (forall env st link content,
      db_fault env (hist st) = None ->
      (db.HasPostChanged link content env st).1
      = match rows st !! link with
        | None => (false, false, None)
        | Some r =>
            if String.eqb (content_hash r) (fingerprint content)
            then (true, false, None) else (true, true, None)
        end)
  /\ (forall env st link c1,
      (db.StoreTootedPost link c1 env st).1 = None ->
      forall env2 st2,
        rows st2 = rows (exec (db.StoreTootedPost link c1) env st) ->
        db_fault env2 (hist st2) = None ->
        (db.HasPostChanged link c1 env2 st2).1 = (true, false, None)
        /\ (forall c2, fingerprint c2 <> fingerprint c1 ->
              (db.HasPostChanged link c2 env2 st2).1 = (true, true, None))
        /\ (forall other c, other <> link -> rows st !! other = None ->
              (db.HasPostChanged other c env2 st2).1 = (false, false, None))).
Proof.
  split; [|split].
  - intros. apply HasPostChanged_rows.
  - intros env st link content Hok.
    rewrite (HasPostChanged_ok _ _ _ _ Hok). unfold classification.
    destruct (rows st !! link) as [r|]; [|reflexivity].
    destruct (String.eqb _ _); reflexivity.
  - intros env st link c1 Hstore env2 st2 Hrows Hok.
    destruct (StoreTootedPost_success _ _ _ _ Hstore) as [now Hins].
    rewrite Hins in Hrows.
    repeat split.
    + rewrite (HasPostChanged_ok _ _ _ _ Hok). unfold classification.
      rewrite Hrows, lookup_insert_eq. simpl. rewrite String.eqb_refl. reflexivity.
    + intros c2 Hne. rewrite (HasPostChanged_ok _ _ _ _ Hok). unfold classification.
      rewrite Hrows, lookup_insert_eq. simpl.
      destruct (String.eqb_spec (fingerprint c1) (fingerprint c2)) as [Heq|_];
        [congruence | reflexivity].
    + intros other c Hne Hnone. rewrite (HasPostChanged_ok _ _ _ _ Hok).
      unfold classification. rewrite Hrows, lookup_insert_ne by congruence.
      rewrite Hnone. reflexivity.
Qed.

(** *** One item: [handlePost] *)

Ltac shape_lists :=
  unfold updateLog, tootFailureLog, storeLog, blueskyEvents, threadsEvents in *.

(** Case analysis on every outcome that decides the events of [handlePost]. *)
Ltac shape_cases :=
  shape_lists;
  repeat match goal with
    | |- context [if ?b then _ else _] => destruct b eqn:?
    | H : context [if ?b then _ else _] |- _ => destruct b eqn:?
    | |- context [match ?o with Some _ => _ | None => _ end] => destruct o eqn:?
    | H : context [match ?o with Some _ => _ | None => _ end] |- _ => destruct o eqn:?
    end;
  simpl in *.

(** C1. When the toot of an item fails, [handlePost] makes no call to
    [db.StoreTootedPost] and none to Bluesky or Threads; the table is what it
    was before; the item was classified as new, (false, false), or updated,
    (true, true), and any later [db.HasPostChanged] on that table gives the
    same answer again. *)
Theorem C1_primary_failure_leaves_store env post conf st url token text e :
  In (EvToot url token text (Some e))
     (emitted (rss2socials.handlePost post conf) env st) ->
  rows (exec (rss2socials.handlePost post conf) env st) = rows st
  /\ (forall ev, In ev (emitted (rss2socials.handlePost post conf) env st) ->
        is_record ev = false /\ is_secondary ev = false)
  /\ (classification (rows st) (Link post) (Content post) = (false, false)
      \/ classification (rows st) (Link post) (Content post) = (true, true))
  /\ (forall env2 st2,
        rows st2 = rows (exec (rss2socials.handlePost post conf) env st) ->
        db_fault env2 (hist st2) = None ->
        (db.HasPostChanged (Link post) (Content post) env2 st2).1
        = (classification (rows st) (Link post) (Content post), None)).
Proof.
  intros Hin.
  destruct (handlePost_emitted env post conf st) as [_ Hshape].
  destruct Hshape as [(e0 & Hevs & Hrows) | [(Hevs & Hrows & Hc)
                     | [(isUpdate & e0 & Hc & Hevs & Hrows)
                     | (isUpdate & now & rerr & berr & terr & Hc & Hevs & Hrows)]]];
    rewrite Hevs in Hin |- *.
  - simpl in Hin. intuition discriminate.
  - simpl in Hin. intuition discriminate.
  - repeat split.
    + exact Hrows.
    + shape_cases; intuition (subst; reflexivity).
    + shape_cases; intuition (subst; reflexivity).
    + destruct isUpdate; auto.
    + intros env2 st2 Hr2 Hok. rewrite (HasPostChanged_ok _ _ _ _ Hok).
      rewrite Hr2, Hrows. reflexivity.
  - exfalso. shape_cases; intuition discriminate.
Qed.

(** *** The loop of [Run] *)

Lemma grows_ask {A : Type} (f : Env -> list Event -> A) : grows (ask f).
Proof. intros env st. unfold emitted, exec, ask. simpl. rewrite drop_all, app_nil_r. reflexivity. Qed.

Lemma grows_CheckRSSFeed url : grows (rss.CheckRSSFeed url).
Proof.
  unfold rss.CheckRSSFeed.
  apply grows_bind; [apply grows_ask|]. intros r.
  apply grows_bind; [apply grows_emit|]. intros _. apply grows_ret.
Qed.

Lemma grows_processPost post conf : grows (rss2socials.processPost post conf).
Proof.
  unfold rss2socials.processPost.
  destruct (negb (Category conf =? "")); [|apply grows_handlePost].
  simpl. destruct (negb _); [apply grows_emit | apply grows_handlePost].
Qed.

Lemma grows_processPosts posts conf : grows (rss2socials.processPosts posts conf).
Proof.
  induction posts as [|p rest IH]; simpl.
  - apply grows_ret.
  - apply grows_bind; [apply grows_processPost | intros _; exact IH].
Qed.

Lemma grows_cycle conf : grows (rss2socials.cycle conf).
Proof.
  unfold rss2socials.cycle.
  apply grows_bind; [apply grows_CheckRSSFeed|]. intros [err|posts].
  - apply grows_emit.
  - apply grows_bind; [apply grows_processPosts | intros _; apply grows_emit].
Qed.

Lemma grows_loop n conf : grows (rss2socials.loop n conf).
Proof.
  induction n as [|n IH]; simpl.
  - apply grows_ret.
  - apply grows_bind; [apply grows_cycle | intros _; exact IH].
Qed.

Lemma emitted_emit ev env st : emitted (emit ev) env st = [ev].
Proof. unfold emitted, exec, emit. simpl. apply drop_hist. Qed.

Lemma emitted_ret {A : Type} (x : A) env st : emitted (mret x : M A) env st = [].
Proof. unfold emitted, exec. simpl. apply drop_all. Qed.

Lemma CheckRSSFeed_run url env st :
  rss.CheckRSSFeed url env st
  = (feed env (hist st) url,
     mkState (rows st) (hist st ++ [EvFetch url (feed env (hist st) url)])).
Proof. reflexivity. Qed.

Lemma emitted_processPosts_cons p rest conf env st :
  emitted (rss2socials.processPosts (p :: rest) conf) env st
  = emitted (rss2socials.processPost p conf) env st
    ++ emitted (rss2socials.processPosts rest conf) env
         (exec (rss2socials.processPost p conf) env st)
  /\ exec (rss2socials.processPosts (p :: rest) conf) env st
     = exec (rss2socials.processPosts rest conf) env
         (exec (rss2socials.processPost p conf) env st).
Proof.
  simpl.
  apply (emitted_bind (rss2socials.processPost p conf)
           (fun _ => rss2socials.processPosts rest conf)).
  - apply grows_processPost.
  - intros _. apply grows_processPosts.
Qed.

(** A pass whose fetch succeeds: every post is processed, then the sleep. *)
Lemma cycle_fetched conf env st posts :
  feed env (hist st) (FeedURL conf) = inr posts ->
  let st1 := mkState (rows st) (hist st ++ [EvFetch (FeedURL conf) (inr posts)]) in
  emitted (rss2socials.cycle conf) env st
  = EvFetch (FeedURL conf) (inr posts)
    :: emitted (rss2socials.processPosts posts conf) env st1
    ++ [EvSleep (rss2socials.wrap64 (Interval conf * rss2socials.Minute))]
  /\ rows (exec (rss2socials.cycle conf) env st)
     = rows (exec (rss2socials.processPosts posts conf) env st1).
Proof.
  intros Hfeed st1. unfold rss2socials.cycle.
  destruct (emitted_bind (rss.CheckRSSFeed (FeedURL conf))
              (fun r => match r with
                        | inl err => log.Printf ("Error fetching RSS feed: " ++ err)
                        | inr posts =>
                            rss2socials.processPosts posts conf;;
                            rss2socials.Sleep
                              (rss2socials.wrap64 (Interval conf * rss2socials.Minute))
                        end) env st) as [He Hx].
  { apply grows_CheckRSSFeed. }
  { intros [err|ps]; [apply grows_emit|].
    apply grows_bind; [apply grows_processPosts | intros _; apply grows_emit]. }
  assert (Hfst : (rss.CheckRSSFeed (FeedURL conf) env st).1 = inr posts).
  { rewrite CheckRSSFeed_run. exact Hfeed. }
  assert (Hexec : exec (rss.CheckRSSFeed (FeedURL conf)) env st = st1).
  { unfold exec. rewrite CheckRSSFeed_run, Hfeed. reflexivity. }
  assert (Hem : emitted (rss.CheckRSSFeed (FeedURL conf)) env st
                = [EvFetch (FeedURL conf) (inr posts)]).
  { unfold emitted. rewrite Hexec. apply drop_hist. }
  rewrite He, Hx, Hfst, Hexec, Hem. clear He Hx.
  destruct (emitted_bind (rss2socials.processPosts posts conf)
              (fun _ => rss2socials.Sleep
                          (rss2socials.wrap64 (Interval conf * rss2socials.Minute)))
              env st1) as [He Hx].
  { apply grows_processPosts. }
  { intros _. apply grows_emit. }
  rewrite He, Hx. unfold rss2socials.Sleep. rewrite emitted_emit.
  split; reflexivity.
Qed.

(** A pass whose fetch fails: the error is logged and the pass is over. *)
Lemma cycle_fetch_failed conf env st err :
  feed env (hist st) (FeedURL conf) = inl err ->
  rss2socials.cycle conf env st
  = (tt, mkState (rows st)
           (hist st ++ [EvFetch (FeedURL conf) (inl err);
                        EvLog InfoLevel ("Error fetching RSS feed: " ++ err)])).
Proof.
  intros Hfeed. unfold rss2socials.cycle, mbind, M_bind.
  rewrite CheckRSSFeed_run, Hfeed. unfold log.Printf, emit. simpl.
  rewrite <- app_assoc. reflexivity.
Qed.


(** [gotify.logFailure] does notify when Gotify is configured; nothing in
    [internal/rss2socials] calls it. *)
Lemma logFailure_notifies message err conf env st :
  GotifyURL conf <> "" -> GotifyToken conf <> "" ->
  emitted (gotify.logFailure message err conf) env st
  = [EvLog InfoLevel (message ++ ": " ++ err);
     EvGotify message err (gotify_api env (hist st ++ [EvLog InfoLevel (message ++ ": " ++ err)])
                             message err)]
    ++ match gotify_api env (hist st ++ [EvLog InfoLevel (message ++ ": " ++ err)]) message err with
       | Some e' => [EvLog InfoLevel ("Error sending Gotify notification: " ++ e')]
       | None => []
       end.
Proof.
  intros Hu Ht.
  apply String.eqb_neq in Hu. apply String.eqb_neq in Ht.
  unfold emitted, exec, gotify.logFailure, gotify.sendGotifyNotification. run_m.
  rewrite Hu, Ht. simpl.
  destruct (gotify_api env _ message err); simpl;
    rewrite <- ?app_assoc; simpl; apply drop_hist.
Qed.

(** C5. When the toot of an item fails, the events of [handlePost] are the
    lookup, the log line of an update if it is one, the failed toot and one
    log line; no event is a Gotify notification. *)
Theorem C5_primary_failure_sends_no_alert env post conf st url token text e :
  In (EvToot url token text (Some e))
     (emitted (rss2socials.handlePost post conf) env st) ->
  (exists isUpdate,
      emitted (rss2socials.handlePost post conf) env st
      = [EvQuery (Link post) None] ++ updateLog post isUpdate
        ++ [EvToot url token text (Some e); tootFailureLog isUpdate e])
  /\ (forall ev, In ev (emitted (rss2socials.handlePost post conf) env st) ->
        is_alert ev = false).
Proof.
  intros Hin.
  destruct (handlePost_emitted env post conf st) as [_ Hshape].
  destruct Hshape as [(e0 & Hevs & Hrows) | [(Hevs & Hrows & Hc)
                     | [(isUpdate & e0 & Hc & Hevs & Hrows)
                     | (isUpdate & now & rerr & berr & terr & Hc & Hevs & Hrows)]]];
    rewrite Hevs in Hin |- *.
  - simpl in Hin. intuition discriminate.
  - simpl in Hin. intuition discriminate.
  - assert (Heq : EvToot url token text (Some e)
                  = EvToot (MastodonURL conf) (MastodonAccessToken conf)
                      (tootContent post conf isUpdate) (Some e0)).
    { clear - Hin. shape_cases; intuition (try discriminate; congruence). }
    inversion Heq; subst url token text e0.
    split; [exists isUpdate; reflexivity|].
    intros ev Hev. clear - Hev. shape_cases; intuition (subst; reflexivity).
  - exfalso. shape_cases; intuition discriminate.
Qed.


(** *** The published text *)

Lemma prefix_empty (s : string) : String.prefix "" s = true.
Proof. destruct s; reflexivity. Qed.

Lemma GetTootContent_format post skip :
  mastodon.GetTootContent post skip = format_spec post skip false.
Proof.
  unfold format_spec. induction skip as [|cat cats IH].
  - reflexivity.
  - change (mastodon.GetTootContent post (cat :: cats))
      with (if strings.HasPrefix (Title post) cat
            then Content post ++ " - " ++ Link post
            else mastodon.GetTootContent post cats)%string.
    unfold strings.HasPrefix. simpl existsb.
    destruct (String.prefix cat (Title post)); [reflexivity | exact IH].
Qed.

(** C7. The text that [handlePost] hands to [mastodon.TootPost] follows the
    three rules of the formatter: for an update, the update announcement
    followed by the link; for a new item whose title starts with one of the
    skip-prefix categories, the content, [" - "] and the link; for any other
    new item, ["New blog post: "] and the link.  The prefix match compares
    bytes, so it is case-sensitive. *)
Theorem C7_published_text env post conf st url token text r :
  In (EvToot url token text r)
     (emitted (rss2socials.handlePost post conf) env st) ->
  (exists isUpdate,
      classification (rows st) (Link post) (Content post) = (isUpdate, isUpdate)
      /\ text = format_spec post (SkipPrefixCategories conf) isUpdate)
  /\ (forall item skip,
        mastodon.GetTootContent item skip = format_spec item skip false)
  /\ (forall item skip,
        format_spec item skip true
        = ("Blog post has been updated: " ++ Link item)%string)
  /\ mastodon.GetTootContent (mkItem "Thoughts on X" "L" "body") ["Thoughts"] = "body - L"
  /\ mastodon.GetTootContent (mkItem "thoughts on X" "L" "body") ["Thoughts"]
     = "New blog post: L".
Proof.
  intros Hin. split; [|split; [|split; [|split]]].
  - assert (Htc : forall b, tootContent post conf b
                            = format_spec post (SkipPrefixCategories conf) b).
    { intros [|]; [reflexivity|]. apply GetTootContent_format. }
    destruct (handlePost_emitted env post conf st) as [_ Hshape].
    destruct Hshape as [(e0 & Hevs & Hrows) | [(Hevs & Hrows & Hc)
                       | [(isUpdate & e0 & Hc & Hevs & Hrows)
                       | (isUpdate & now & rerr & berr & terr & Hc & Hevs & Hrows)]]];
      rewrite Hevs in Hin.
    + simpl in Hin. intuition discriminate.
    + simpl in Hin. intuition discriminate.
    + exists isUpdate. split; [exact Hc|]. rewrite <- Htc.
      clear - Hin. shape_cases; intuition (try discriminate; congruence).
    + exists isUpdate. split; [exact Hc|]. rewrite <- Htc.
      clear - Hin. shape_cases; intuition (try discriminate; congruence).
  - apply GetTootContent_format.
  - reflexivity.
  - vm_compute. reflexivity.
  - vm_compute. reflexivity.
Qed.

(** C10. With the empty string among the skip-prefix categories, every item
    that is not an update is rendered as content, [" - "] and link. *)
Theorem C10_empty_skip_prefix post skip :
  In "" skip ->
  mastodon.GetTootContent post skip = (Content post ++ " - " ++ Link post)%string.
Proof.
  induction skip as [|cat cats IH]; intros Hin; [destruct Hin|].
  change (mastodon.GetTootContent post (cat :: cats))
    with (if strings.HasPrefix (Title post) cat
          then Content post ++ " - " ++ Link post
          else mastodon.GetTootContent post cats)%string.
  unfold strings.HasPrefix.
  destruct (String.prefix cat (Title post)) eqn:Hp; [reflexivity|].
  destruct Hin as [-> | Hin]; [|exact (IH Hin)].
  rewrite prefix_empty in Hp. discriminate.
Qed.

(** *** The category filter *)

(** C8. With a category configured, [Run] compares it with
    [path.Base] of the item's link.  An item whose last segment contains the
    category goes to [handlePost].  An item whose last segment does not is
    dropped: the table is unchanged and the only event is the debug log
    line, so there is no lookup, no publish and no store. *)
Theorem C8_category_filter env post conf st :
  Category conf <> "" ->
  (strings.Contains (path.Base (Link post)) (Category conf) = true ->
     rss2socials.processPost post conf env st = rss2socials.handlePost post conf env st)
  /\ (strings.Contains (path.Base (Link post)) (Category conf) = false ->
     rows (exec (rss2socials.processPost post conf) env st) = rows st
     /\ emitted (rss2socials.processPost post conf) env st
        = [EvLog DebugLevel
             ("Skipping post " ++ Title post ++ ": category filter '"
              ++ Category conf ++ "' not in URL segment '"
              ++ path.Base (Link post) ++ "'")]
     /\ (forall ev, In ev (emitted (rss2socials.processPost post conf) env st) ->
           is_item_effect ev = false))
  /\ strings.Contains (path.Base "https://x.com/a/tech-post") "tech" = true
  /\ strings.Contains (path.Base "https://x.com/a/other-post") "tech" = false.
Proof.
  intros Hcat. apply String.eqb_neq in Hcat.
  split; [|split; [|split]].
  - intros Hc. unfold rss2socials.processPost. rewrite Hcat, Hc. reflexivity.
  - intros Hc.
    assert (Hrun : rss2socials.processPost post conf
                   = log.Debugf ("Skipping post " ++ Title post ++ ": category filter '"
                                 ++ Category conf ++ "' not in URL segment '"
                                 ++ path.Base (Link post) ++ "'")).
    { unfold rss2socials.processPost. rewrite Hcat, Hc. reflexivity. }
    rewrite Hrun. unfold log.Debugf. rewrite emitted_emit.
    split; [reflexivity|]. split; [reflexivity|].
    intros ev [<- | []]. reflexivity.
  - vm_compute. reflexivity.
  - vm_compute. reflexivity.
Qed.

(** *** Fetch failures and the sleep *)

Lemma loop_S n conf env st :
  emitted (rss2socials.loop (S n) conf) env st
  = emitted (rss2socials.cycle conf) env st
    ++ emitted (rss2socials.loop n conf) env (exec (rss2socials.cycle conf) env st)
  /\ exec (rss2socials.loop (S n) conf) env st
     = exec (rss2socials.loop n conf) env (exec (rss2socials.cycle conf) env st).
Proof.
  simpl.
  apply (emitted_bind (rss2socials.cycle conf) (fun _ => rss2socials.loop n conf)).
  - apply grows_cycle.
  - intros _. apply grows_loop.
Qed.

Lemma loop_feed_down conf env err n :
  (forall h, feed env h (FeedURL conf) = inl err) ->
  forall st,
    emitted (rss2socials.loop n conf) env st = concat (repeat (failedFetch conf err) n)
    /\ rows (exec (rss2socials.loop n conf) env st) = rows st.
Proof.
  intros Hdown. induction n as [|n IH]; intros st.
  - split; [apply emitted_ret | reflexivity].
  - destruct (loop_S n conf env st) as [-> ->].
    destruct (IH (exec (rss2socials.cycle conf) env st)) as [-> ->].
    unfold emitted, exec. rewrite (cycle_fetch_failed conf env st err (Hdown _)).
    simpl. rewrite drop_hist. split; reflexivity.
Qed.

(** C4. In a pass whose fetch fails, [Run] makes the fetch, logs the error
    and nothing else: no item is processed, the table is unchanged, and no
    sleep follows, so the fetch of the next pass comes right after the log
    line.  While the feed stays down, [n] passes are [n] fetches and [n] log
    lines with no sleep between them. *)
Theorem C4_fetch_failure_skips_sleep conf env st err :
  feed env (hist st) (FeedURL conf) = inl err ->
  emitted (rss2socials.cycle conf) env st = failedFetch conf err
  /\ rows (exec (rss2socials.cycle conf) env st) = rows st
  /\ (forall ev, In ev (emitted (rss2socials.cycle conf) env st) -> is_sleep ev = false)
  /\ (forall n,
        emitted (rss2socials.loop (S n) conf) env st
        = failedFetch conf err
          ++ emitted (rss2socials.loop n conf) env (exec (rss2socials.cycle conf) env st))
  /\ ((forall h, feed env h (FeedURL conf) = inl err) ->
      forall n,
        emitted (rss2socials.loop n conf) env st = concat (repeat (failedFetch conf err) n)).
Proof.
  intros Hfeed.
  assert (Hem : emitted (rss2socials.cycle conf) env st = failedFetch conf err).
  { unfold emitted, exec. rewrite (cycle_fetch_failed conf env st err Hfeed).
    simpl. apply drop_hist. }
  split; [exact Hem|]. split; [|split; [|split]].
  - unfold exec. rewrite (cycle_fetch_failed conf env st err Hfeed). reflexivity.
  - rewrite Hem. intros ev [<- | [<- | []]]; reflexivity.
  - intros n. destruct (loop_S n conf env st) as [-> _]. rewrite Hem. reflexivity.
  - intros Hdown n. apply loop_feed_down. exact Hdown.
Qed.

Lemma sleeps_are_app d evs1 evs2 :
  sleeps_are d evs1 -> sleeps_are d evs2 -> sleeps_are d (evs1 ++ evs2).
Proof.
  intros H1 H2 x Hin. apply in_app_or in Hin. destruct Hin; [apply H1 | apply H2]; assumption.
Qed.

Lemma sleeps_are_nil d : sleeps_are d [].
Proof. intros x []. Qed.

Lemma sleeps_handlePost d post conf env st :
  sleeps_are d (emitted (rss2socials.handlePost post conf) env st).
Proof.
  intros x Hin. exfalso.
  destruct (handlePost_emitted env post conf st) as [_ Hshape].
  destruct Hshape as [(e0 & Hevs & Hrows) | [(Hevs & Hrows & Hc)
                     | [(isUpdate & e0 & Hc & Hevs & Hrows)
                     | (isUpdate & now & rerr & berr & terr & Hc & Hevs & Hrows)]]];
    rewrite Hevs in Hin; clear - Hin; shape_cases; intuition discriminate.
Qed.

Lemma sleeps_processPost d post conf env st :
  sleeps_are d (emitted (rss2socials.processPost post conf) env st).
Proof.
  unfold rss2socials.processPost.
  destruct (negb (Category conf =? "")); [|apply sleeps_handlePost].
  simpl. destruct (negb _); [|apply sleeps_handlePost].
  unfold log.Debugf. rewrite emitted_emit. intros x [Heq | []]. discriminate.
Qed.

Lemma sleeps_processPosts d posts conf env st :
  sleeps_are d (emitted (rss2socials.processPosts posts conf) env st).
Proof.
  revert st. induction posts as [|p rest IH]; intros st.
  - simpl. rewrite emitted_ret. apply sleeps_are_nil.
  - destruct (emitted_processPosts_cons p rest conf env st) as [-> _].
    apply sleeps_are_app; [apply sleeps_processPost | apply IH].
Qed.

Lemma sleeps_cycle conf env st :
  sleeps_are (rss2socials.wrap64 (Interval conf * rss2socials.Minute))
    (emitted (rss2socials.cycle conf) env st).
Proof.
  destruct (feed env (hist st) (FeedURL conf)) as [err|posts] eqn:Hfeed.
  - unfold emitted, exec. rewrite (cycle_fetch_failed conf env st err Hfeed).
    simpl. rewrite drop_hist. intros x Hin. simpl in Hin. intuition discriminate.
  - destruct (cycle_fetched conf env st posts Hfeed) as [-> _].
    intros x [Heq | Hin]; [discriminate|].
    apply in_app_or in Hin. destruct Hin as [Hin | [Heq | []]].
    + exact (sleeps_processPosts _ _ _ _ _ x Hin).
    + congruence.
Qed.

Lemma sleeps_loop n conf env st :
  sleeps_are (rss2socials.wrap64 (Interval conf * rss2socials.Minute))
    (emitted (rss2socials.loop n conf) env st).
Proof.
  revert st. induction n as [|n IH]; intros st.
  - simpl. rewrite emitted_ret. apply sleeps_are_nil.
  - destruct (loop_S n conf env st) as [-> _].
    apply sleeps_are_app; [apply sleeps_cycle | apply IH].
Qed.

Lemma grows_InitDB : grows db.InitDB.
Proof.
  unfold db.InitDB.
  apply grows_bind; [apply grows_ask|]. intros err.
  apply grows_bind; [apply grows_emit|]. intros _.
  destruct err as [e|].
  - apply grows_bind; [apply grows_emit | intros _; apply grows_ret].
  - apply grows_bind; [apply grows_ask|]. intros err.
    apply grows_bind; [apply grows_emit|]. intros _.
    destruct err as [e|]; [|apply grows_ret].
    apply grows_bind; [apply grows_emit | intros _; apply grows_ret].
Qed.

Lemma sleeps_InitDB d env st : sleeps_are d (emitted db.InitDB env st).
Proof.
  intros x Hin. exfalso. revert Hin.
  unfold emitted, exec, db.InitDB. run_m.
  destruct (db_open env (hist st)) as [e|]; simpl.
  - rewrite <- app_assoc, drop_hist. simpl. intuition discriminate.
  - destruct (db_fault env _) as [e|]; simpl;
      rewrite <- ?app_assoc, drop_hist; simpl; intuition discriminate.
Qed.

(** The passes of [Run] once the configuration is settled. *)
Lemma sleeps_start n conf env st :
  sleeps_are (rss2socials.wrap64 (Interval conf * rss2socials.Minute))
    (emitted (ok ← db.InitDB; if ok : bool then rss2socials.loop n conf else mret tt) env st).
Proof.
  destruct (emitted_bind db.InitDB
              (fun ok : bool => if ok then rss2socials.loop n conf else mret tt) env st)
    as [-> _].
  - apply grows_InitDB.
  - intros [|]; [apply grows_loop | apply grows_ret].
  - apply sleeps_are_app; [apply sleeps_InitDB|].
    destruct (db.InitDB env st).1; [apply sleeps_loop|].
    rewrite emitted_ret. apply sleeps_are_nil.
Qed.

Lemma sleeps_Run conf n env st :
  sleeps_are
    (rss2socials.wrap64
       ((if (Interval conf <=? 0)%Z then 60 else Interval conf) * rss2socials.Minute))
    (emitted (rss2socials.Run conf n) env st).
Proof.
  unfold rss2socials.Run.
  destruct (FeedURL conf =? "").
  { unfold log.Fatal. rewrite emitted_emit. intros x [Heq | []]. discriminate. }
  destruct (Interval conf <=? 0)%Z.
  - destruct (emitted_bind
                (log.Error "Interval must be a positive integer";;
                 mret (setInterval conf 60))
                (fun conf' => ok ← db.InitDB;
                              if ok : bool then rss2socials.loop n conf' else mret tt)
                env st) as [-> _].
    + apply grows_bind; [apply grows_emit | intros _; apply grows_ret].
    + intros conf'. apply grows_bind; [apply grows_InitDB|].
      intros [|]; [apply grows_loop | apply grows_ret].
    + apply sleeps_are_app.
      * intros x Hin. exfalso. revert Hin. unfold emitted, exec. run_m.
        rewrite drop_hist. simpl. intuition discriminate.
      * apply (sleeps_start n (setInterval conf 60)).
  - apply (sleeps_start n conf).
Qed.


(** *** The statements at work *)

Lemma C1_witness :
  In (EvToot "https://m.example" "tok" "body - L" (Some "unexpected HTTP status: 500"))
     (emitted (rss2socials.handlePost p_new conf_demo) env_mastodon_down st0)
  /\ rows (exec (rss2socials.handlePost p_new conf_demo) env_mastodon_down st0) = rows st0.
Proof.
  assert (Hin : In (EvToot "https://m.example" "tok" "body - L"
                           (Some "unexpected HTTP status: 500"))
                   (emitted (rss2socials.handlePost p_new conf_demo) env_mastodon_down st0)).
  { vm_compute. auto. }
  split; [exact Hin|].
  exact (proj1 (C1_primary_failure_leaves_store _ _ _ _ _ _ _ _ Hin)).
Defined.

Lemma C2_witness :
  (db.HasPostChanged "L" "c1" env_ok (exec (db.StoreTootedPost "L" "c1") env_ok st0)).1
  = (true, false, None)
  /\ (db.HasPostChanged "L" "c2" env_ok (exec (db.StoreTootedPost "L" "c1") env_ok st0)).1
     = (true, true, None)
  /\ (db.HasPostChanged "M" "c1" env_ok (exec (db.StoreTootedPost "L" "c1") env_ok st0)).1
     = (false, false, None).
Proof.
  destruct C2_HasPostChanged_postcondition as (_ & _ & H).
  assert (Hstore : (db.StoreTootedPost "L" "c1" env_ok st0).1 = None)
    by (vm_compute; reflexivity).
  destruct (H env_ok st0 "L" "c1" Hstore env_ok
              (exec (db.StoreTootedPost "L" "c1") env_ok st0) eq_refl eq_refl)
    as (Hsame & Hdiff & Hother).
  split; [exact Hsame|]. split.
  - apply Hdiff. vm_compute. discriminate.
  - apply Hother; [discriminate | reflexivity].
Defined.


Example bluesky_failure_trace :
  emitted (rss2socials.handlePost p_new conf_demo) env_bluesky_down st0
  = [EvQuery "L" None;
     EvToot "https://m.example" "tok" "body - L" None;
     EvUpsert "L" "230d8358dc8e8890b4c58deeb62912ee2f20357ae92a5cc861b98e68fe31acb5"
       "2024-05-01T10:00:00Z" None;
     EvLog InfoLevel "Posting to Bluesky: Thoughts on X";
     EvBluesky "me.bsky.social" "app-password" "https://bsky.social" "body - L"
       (Some "failed to create session: status code 401");
     EvLog ErrorLevel "Failed to post to Bluesky: failed to create session: status code 401";
     EvLog InfoLevel "Posting to Threads: Thoughts on X";
     EvThreads "42" "threads-token" "body - L" None;
     EvLog InfoLevel "Successfully posted to Threads"].
Proof. vm_compute. reflexivity. Qed.

Lemma C4_witness :
  feed env_feed_down (hist st0) (FeedURL conf_demo)
  = inl "HTTP request failed: connection refused"
  /\ emitted (rss2socials.loop 3 conf_demo) env_feed_down st0
     = concat (repeat (failedFetch conf_demo "HTTP request failed: connection refused") 3).
Proof.
  split; [reflexivity|].
  apply (C4_fetch_failure_skips_sleep conf_demo env_feed_down st0
           "HTTP request failed: connection refused" eq_refl).
  intros h. reflexivity.
Defined.

Lemma C5_witness :
  In (EvToot "https://m.example" "tok" "body - L" (Some "unexpected HTTP status: 500"))
     (emitted (rss2socials.handlePost p_new conf_demo) env_mastodon_down st0)
  /\ forall ev,
      In ev (emitted (rss2socials.handlePost p_new conf_demo) env_mastodon_down st0) ->
      is_alert ev = false.
Proof.
  assert (Hin : In (EvToot "https://m.example" "tok" "body - L"
                           (Some "unexpected HTTP status: 500"))
                   (emitted (rss2socials.handlePost p_new conf_demo) env_mastodon_down st0)).
  { vm_compute. auto. }
  split; [exact Hin|].
  exact (proj2 (C5_primary_failure_sends_no_alert _ _ _ _ _ _ _ _ Hin)).
Defined.

(** The failing input of C5: Gotify is configured, Mastodon answers 500, and
    the failure is logged only. *)
Example primary_failure_trace :
  emitted (rss2socials.handlePost p_new conf_demo) env_mastodon_down st0
  = [EvQuery "L" None;
     EvToot "https://m.example" "tok" "body - L" (Some "unexpected HTTP status: 500");
     EvLog InfoLevel "Failed to toot new post: unexpected HTTP status: 500"].
Proof. vm_compute. reflexivity. Qed.

(** The failing input of C4: three passes with the feed down. *)
Example feed_down_trace :
  emitted (rss2socials.Run conf_demo 3) env_feed_down st0
  = [EvOpen None; EvCreateTable None;
     EvFetch "https://x.com/feed" (inl "HTTP request failed: connection refused");
     EvLog InfoLevel "Error fetching RSS feed: HTTP request failed: connection refused";
     EvFetch "https://x.com/feed" (inl "HTTP request failed: connection refused");
     EvLog InfoLevel "Error fetching RSS feed: HTTP request failed: connection refused";
     EvFetch "https://x.com/feed" (inl "HTTP request failed: connection refused");
     EvLog InfoLevel "Error fetching RSS feed: HTTP request failed: connection refused"].
Proof. vm_compute. reflexivity. Qed.



Lemma C7_witness :
  In (EvToot "https://m.example" "tok" "body - L" None)
     (emitted (rss2socials.handlePost p_new conf_demo) env_ok st0)
  /\ exists isUpdate,
      classification (rows st0) (Link p_new) (Content p_new) = (isUpdate, isUpdate)
      /\ "body - L" = format_spec p_new (SkipPrefixCategories conf_demo) isUpdate.
Proof.
  assert (Hin : In (EvToot "https://m.example" "tok" "body - L" None)
                   (emitted (rss2socials.handlePost p_new conf_demo) env_ok st0)).
  { vm_compute. auto. }
  split; [exact Hin|].
  exact (proj1 (C7_published_text _ _ _ _ _ _ _ _ Hin)).
Defined.

Lemma C8_witness :
  Category conf_tech <> ""
  /\ strings.Contains (path.Base (Link p_other)) (Category conf_tech) = false
  /\ rows (exec (rss2socials.processPost p_other conf_tech) env_ok st0) = rows st0
  /\ emitted (rss2socials.processPost p_other conf_tech) env_ok st0
     = [EvLog DebugLevel
          "Skipping post Other: category filter 'tech' not in URL segment 'other-post'"].
Proof.
  assert (Hcat : Category conf_tech <> "") by discriminate.
  assert (Hno : strings.Contains (path.Base (Link p_other)) (Category conf_tech) = false)
    by (vm_compute; reflexivity).
  split; [exact Hcat|]. split; [exact Hno|].
  destruct (C8_category_filter env_ok p_other conf_tech st0 Hcat) as (_ & H & _).
  destruct (H Hno) as (Hrows & Hevs & _).
  split; [exact Hrows | exact Hevs].
Defined.


Lemma C10_witness :
  In "" ["Thoughts"; ""]
  /\ mastodon.GetTootContent (mkItem "New Thing" "L" "body") ["Thoughts"; ""] = "body - L".
Proof.
  assert (Hin : In "" ["Thoughts"; ""]) by (simpl; auto).
  split; [exact Hin|].
  exact (C10_empty_skip_prefix (mkItem "New Thing" "L" "body") _ Hin).
Defined.

(** ** Further properties *)

(** *** Lifting a property of [handlePost] to the loop *)

Lemma exec_bind {A B : Type} (m : M A) (k : A -> M B) env st :
  exec (m ≫= k) env st = exec (k (m env st).1) env (exec m env st).
Proof. unfold exec, mbind, M_bind. destruct (m env st) as [a st1]. reflexivity. Qed.

Lemma exec_emit ev env st : rows (exec (emit ev) env st) = rows st.
Proof. reflexivity. Qed.

Lemma processPost_cases post conf :
  (passes_filter conf post = true
   /\ rss2socials.processPost post conf = rss2socials.handlePost post conf)
  \/ (passes_filter conf post = false
      /\ rss2socials.processPost post conf
         = log.Debugf ("Skipping post " ++ Title post ++ ": category filter '"
                       ++ Category conf ++ "' not in URL segment '"
                       ++ path.Base (Link post) ++ "'")).
Proof.
  unfold passes_filter, rss2socials.processPost.
  destruct (Category conf =? ""); simpl; [left; auto|].
  destruct (strings.Contains _ _); simpl; [left | right]; auto.
Qed.

(** A property [P t t' evs] of the table before, the table after and the
    events in between, that holds of [handlePost] and composes, holds of the
    loop. *)
Section Lift.

Variable P : gmap string PostRecord -> gmap string PostRecord -> list Event -> Prop.
Hypothesis P_nil : forall t, P t t [].
Hypothesis P_app :
  forall t1 t2 t3 evs1 evs2, P t1 t2 evs1 -> P t2 t3 evs2 -> P t1 t3 (evs1 ++ evs2).
Hypothesis P_other : forall t ev, is_loop_event ev = true -> P t t [ev].
Variable conf : Config.
Hypothesis P_handlePost :
  forall post env st,
    P (rows st) (rows (exec (rss2socials.handlePost post conf) env st))
      (emitted (rss2socials.handlePost post conf) env st).

Lemma lift_processPost post env st :
  P (rows st) (rows (exec (rss2socials.processPost post conf) env st))
    (emitted (rss2socials.processPost post conf) env st).
Proof.
  destruct (processPost_cases post conf) as [[_ ->] | [_ ->]]; [apply P_handlePost|].
  unfold log.Debugf. rewrite emitted_emit. apply P_other. reflexivity.
Qed.

Lemma lift_processPosts posts env st :
  P (rows st) (rows (exec (rss2socials.processPosts posts conf) env st))
    (emitted (rss2socials.processPosts posts conf) env st).
Proof.
  revert st. induction posts as [|p rest IH]; intros st.
  - simpl. rewrite emitted_ret. apply P_nil.
  - destruct (emitted_processPosts_cons p rest conf env st) as [-> ->].
    eapply P_app; [apply lift_processPost | apply IH].
Qed.

Lemma lift_cycle env st :
  P (rows st) (rows (exec (rss2socials.cycle conf) env st))
    (emitted (rss2socials.cycle conf) env st).
Proof.
  destruct (feed env (hist st) (FeedURL conf)) as [err|posts] eqn:Hfeed.
  - unfold emitted, exec. rewrite (cycle_fetch_failed conf env st err Hfeed).
    simpl. rewrite drop_hist.
    apply (P_app (rows st) (rows st) (rows st) [_] [_]); apply P_other; reflexivity.
  - destruct (cycle_fetched conf env st posts Hfeed) as [-> ->].
    apply (P_app (rows st) (rows st) _ [_] _); [apply P_other; reflexivity|].
    eapply P_app.
    + apply (lift_processPosts posts env
               (mkState (rows st) (hist st ++ [EvFetch (FeedURL conf) (inr posts)]))).
    + apply P_other. reflexivity.
Qed.

Lemma lift_loop n env st :
  P (rows st) (rows (exec (rss2socials.loop n conf) env st))
    (emitted (rss2socials.loop n conf) env st).
Proof.
  revert st. induction n as [|n IH]; intros st.
  - simpl. rewrite emitted_ret. apply P_nil.
  - destruct (loop_S n conf env st) as [-> ->].
    eapply P_app; [apply lift_cycle | apply IH].
Qed.

End Lift.

Lemma InitDB_rows env st : rows (exec db.InitDB env st) = rows st.
Proof.
  unfold exec, db.InitDB. run_m.
  destruct (db_open env (hist st)); simpl; [reflexivity|].
  destruct (db_fault env _); reflexivity.
Qed.

Lemma InitDB_events env st :
  Forall (fun ev => is_item_effect ev = false /\ is_fetch ev = false /\ is_sleep ev = false)
    (emitted db.InitDB env st).
Proof.
  unfold emitted, exec, db.InitDB. run_m.
  destruct (db_open env (hist st)) as [e|]; simpl.
  - rewrite <- app_assoc, drop_hist. simpl. repeat constructor.
  - destruct (db_fault env _) as [e|]; simpl;
      rewrite <- ?app_assoc, drop_hist; simpl; repeat constructor.
Qed.

(** [Run] is its prologue, then [db.InitDB], then the loop with the
    effective configuration. *)
Lemma Run_unfold conf n env st :
  FeedURL conf <> "" ->
  let pre := if (Interval conf <=? 0)%Z
             then [EvLog ErrorLevel "Interval must be a positive integer"] else [] in
  let st1 := mkState (rows st) (hist st ++ pre) in
  let st2 := exec db.InitDB env st1 in
  emitted (rss2socials.Run conf n) env st
  = pre ++ emitted db.InitDB env st1
    ++ (if (db.InitDB env st1).1
        then emitted (rss2socials.loop n (effective conf)) env st2 else [])
  /\ rows (exec (rss2socials.Run conf n) env st)
     = if (db.InitDB env st1).1
       then rows (exec (rss2socials.loop n (effective conf)) env st2) else rows st.
Proof.
  intros Hurl. apply String.eqb_neq in Hurl. simpl.
  unfold rss2socials.Run, effective. rewrite Hurl.
  set (start := fun conf' : Config =>
         ok ← db.InitDB; if ok : bool then rss2socials.loop n conf' else mret tt).
  assert (Hstart : forall conf' s,
    emitted (start conf') env s
    = emitted db.InitDB env s
      ++ (if (db.InitDB env s).1
          then emitted (rss2socials.loop n conf') env (exec db.InitDB env s) else [])
    /\ rows (exec (start conf') env s)
       = if (db.InitDB env s).1
         then rows (exec (rss2socials.loop n conf') env (exec db.InitDB env s))
         else rows s).
  { intros conf' s. unfold start.
    destruct (emitted_bind db.InitDB
                (fun ok : bool => if ok then rss2socials.loop n conf' else mret tt) env s)
      as [-> ->].
    - apply grows_InitDB.
    - intros [|]; [apply grows_loop | apply grows_ret].
    - destruct (db.InitDB env s).1.
      + split; reflexivity.
      + rewrite emitted_ret. split; [reflexivity|]. apply InitDB_rows. }
  destruct (Interval conf <=? 0)%Z.
  - destruct (emitted_bind
                (log.Error "Interval must be a positive integer";;
                 mret (setInterval conf 60)) start env st) as [-> ->].
    + apply grows_bind; [apply grows_emit | intros _; apply grows_ret].
    + intros conf'. unfold start. apply grows_bind; [apply grows_InitDB|].
      intros [|]; [apply grows_loop | apply grows_ret].
    + assert (Hpre : emitted (log.Error "Interval must be a positive integer";;
                              mret (setInterval conf 60)) env st
                     = [EvLog ErrorLevel "Interval must be a positive integer"]).
      { unfold emitted, exec. run_m. apply drop_hist. }
      rewrite Hpre.
      change (exec (log.Error "Interval must be a positive integer";;
                    mret (setInterval conf 60)) env st)
        with (mkState (rows st)
                (hist st ++ [EvLog ErrorLevel "Interval must be a positive integer"])).
      change ((log.Error "Interval must be a positive integer";;
               mret (setInterval conf 60)) env st).1 with (setInterval conf 60).
      destruct (Hstart (setInterval conf 60)
                  (mkState (rows st)
                     (hist st ++ [EvLog ErrorLevel "Interval must be a positive integer"])))
        as [-> ->].
      split; reflexivity.
  - change ((mret conf : M Config) ≫= start) with (fun env st => start conf env st).
    rewrite app_nil_r. destruct st as [t h]. simpl.
    destruct (Hstart conf (mkState t h)) as [H1 H2].
    split; [exact H1 | exact H2].
Qed.

Lemma Run_no_url conf n env st :
  FeedURL conf = "" ->
  rss2socials.Run conf n env st
  = (tt, mkState (rows st) (hist st ++ [EvLog FatalLevel "RSS feed URL is required"])).
Proof. intros Hurl. unfold rss2socials.Run. rewrite Hurl. reflexivity. Qed.

Lemma lift_Run (P : gmap string PostRecord -> gmap string PostRecord -> list Event -> Prop)
    conf n env st :
  (forall t, P t t []) ->
  (forall t1 t2 t3 evs1 evs2, P t1 t2 evs1 -> P t2 t3 evs2 -> P t1 t3 (evs1 ++ evs2)) ->
  (forall t ev, is_item_effect ev = false -> P t t [ev]) ->
  (forall post env' st',
      P (rows st') (rows (exec (rss2socials.handlePost post (effective conf)) env' st'))
        (emitted (rss2socials.handlePost post (effective conf)) env' st')) ->
  P (rows st) (rows (exec (rss2socials.Run conf n) env st))
    (emitted (rss2socials.Run conf n) env st).
Proof.
  intros Hnil Happ Hother Hpost.
  assert (Hothers : forall t evs,
             Forall (fun ev => is_item_effect ev = false) evs -> P t t evs).
  { intros t evs. induction 1 as [|ev evs Hev _ IH]; [apply Hnil|].
    apply (Happ t t t [ev] evs); [apply Hother, Hev | exact IH]. }
  destruct (String.eqb_spec (FeedURL conf) "") as [Hurl | Hurl].
  - unfold emitted, exec. rewrite (Run_no_url conf n env st Hurl). simpl.
    rewrite drop_hist. apply Hother. reflexivity.
  - destruct (Run_unfold conf n env st Hurl) as [-> ->].
    set (pre := if (Interval conf <=? 0)%Z
                then [EvLog ErrorLevel "Interval must be a positive integer"] else []).
    set (st1 := mkState (rows st) (hist st ++ pre)).
    apply (Happ (rows st) (rows st)).
    { apply Hothers. subst pre. destruct (Interval conf <=? 0)%Z; repeat constructor. }
    apply (Happ (rows st) (rows st)).
    { apply Hothers. eapply Forall_impl; [apply InitDB_events|]. intros ev (H & _). exact H. }
    destruct (db.InitDB env st1).1; [|apply Hnil].
    assert (Hloop : forall t ev, is_loop_event ev = true -> P t t [ev]).
    { intros t ev Hev. apply Hother. destruct ev; try reflexivity; discriminate. }
    pose proof (lift_loop P Hnil Happ Hloop (effective conf) Hpost n env
                  (exec db.InitDB env st1)) as H.
    rewrite InitDB_rows in H. exact H.
Qed.

(** *** What [Run] does to the table *)

Lemma lookups_app evs1 evs2 : lookups (evs1 ++ evs2) = lookups evs1 ++ lookups evs2.
Proof. unfold lookups. apply flat_map_app. Qed.

Lemma handlePost_lookups post conf env st :
  lookups (emitted (rss2socials.handlePost post conf) env st) = [Link post].
Proof.
  destruct (handlePost_emitted env post conf st) as [_ Hshape].
  destruct Hshape as [(e0 & Hevs & Hrows) | [(Hevs & Hrows & Hc)
                     | [(isUpdate & e0 & Hc & Hevs & Hrows)
                     | (isUpdate & now & rerr & berr & terr & Hc & Hevs & Hrows)]]];
    rewrite Hevs; shape_cases; reflexivity.
Qed.

Lemma handlePost_rows post conf env st :
  rows (exec (rss2socials.handlePost post conf) env st) = rows st
  \/ exists now,
      rows (exec (rss2socials.handlePost post conf) env st)
      = <[Link post := mkRecord (fingerprint (Content post)) now]> (rows st).
Proof.
  destruct (handlePost_emitted env post conf st) as [_ Hshape].
  destruct Hshape as [(e0 & Hevs & Hrows) | [(Hevs & Hrows & Hc)
                     | [(isUpdate & e0 & Hc & Hevs & Hrows)
                     | (isUpdate & now & rerr & berr & terr & Hc & Hevs & Hrows)]]];
    auto.
  destruct rerr; [left | right; exists now]; exact Hrows.
Qed.

(** X1. [Run] never deletes a row, and the only rows it writes are those of
    links it has looked up. *)
Theorem Run_changes_only_looked_up_rows conf n env st :
  dom (rows st) ⊆ dom (rows (exec (rss2socials.Run conf n) env st))
  /\ forall link,
      rows (exec (rss2socials.Run conf n) env st) !! link = rows st !! link
      \/ In link (lookups (emitted (rss2socials.Run conf n) env st)).
Proof.
  pose (P := fun (t t' : gmap string PostRecord) (evs : list Event) =>
               dom t ⊆ dom t'
               /\ forall link, t' !! link = t !! link \/ In link (lookups evs)).
  apply (lift_Run P); unfold P; clear P.
  - intros t. split; [set_solver | auto].
  - intros t1 t2 t3 evs1 evs2 [Hd1 H1] [Hd2 H2]. split; [set_solver|].
    intros link. rewrite lookups_app, in_app_iff.
    destruct (H2 link) as [-> | Hin]; [|auto].
    destruct (H1 link) as [-> | Hin]; auto.
  - intros t ev _. split; [set_solver | auto].
  - intros post env' st'. rewrite handlePost_lookups.
    destruct (handlePost_rows post (effective conf) env' st') as [-> | [now ->]].
    + split; [set_solver | auto].
    + split; [rewrite dom_insert_L; set_solver|].
      intros link. destruct (decide (Link post = link)) as [<- | Hne].
      * right. simpl. auto.
      * left. apply lookup_insert_ne. exact Hne.
Qed.

Lemma split_at_unique {A : Type} (p : A -> bool) (a a' b b' : list A) (x x' : A) :
  a ++ x :: b = a' ++ x' :: b' ->
  Forall (fun y => p y = false) a -> Forall (fun y => p y = false) b ->
  p x = true -> p x' = true ->
  a' = a /\ x' = x /\ b' = b.
Proof.
  revert a'. induction a as [|y a IH]; intros a' Heq Ha Hb Hx Hx'.
  - destruct a' as [|y' a']; simpl in Heq.
    + injection Heq as -> ->. auto.
    + injection Heq as -> ->. exfalso.
      apply Forall_app in Hb. destruct Hb as [_ Hb].
      apply Forall_cons in Hb. destruct Hb as [Hb _]. congruence.
  - apply Forall_cons in Ha. destruct Ha as [Hy Ha].
    destruct a' as [|y' a']; simpl in Heq.
    + injection Heq as -> _. congruence.
    + injection Heq as -> Heq.
      destruct (IH a' Heq Ha Hb Hx Hx') as (-> & -> & ->). auto.
Qed.

Lemma store_follows_toot_none evs :
  Forall (fun ev => is_record ev = false) evs -> store_follows_toot evs.
Proof.
  intros Hall pre link hash now r rest ->. exfalso.
  apply Forall_app in Hall. destruct Hall as [_ Hall].
  apply Forall_cons in Hall. destruct Hall as [Hall _]. discriminate.
Qed.

Lemma store_follows_toot_app evs1 evs2 :
  store_follows_toot evs1 -> store_follows_toot evs2 -> store_follows_toot (evs1 ++ evs2).
Proof.
  intros H1 H2 pre link hash now r rest Heq.
  apply app_eq_app in Heq. destruct Heq as [mid [[-> Hmid] | [-> Hmid]]].
  - destruct mid as [|ev mid]; simpl in Hmid.
    + destruct (H2 [] link hash now r rest (eq_sym Hmid)) as (pre' & url & token & text & Hnil).
      destruct pre'; discriminate.
    + injection Hmid as <- ->. eapply H1. reflexivity.
  - destruct (H2 mid link hash now r rest Hmid) as (pre' & url & token & text & ->).
    exists (evs1 ++ pre'), url, token, text. rewrite app_assoc. reflexivity.
Qed.

Lemma handlePost_store_follows_toot post conf env st :
  store_follows_toot (emitted (rss2socials.handlePost post conf) env st).
Proof.
  destruct (handlePost_emitted env post conf st) as [_ Hshape].
  destruct Hshape as [(e0 & Hevs & Hrows) | [(Hevs & Hrows & Hc)
                     | [(isUpdate & e0 & Hc & Hevs & Hrows)
                     | (isUpdate & now & rerr & berr & terr & Hc & Hevs & Hrows)]]];
    rewrite Hevs.
  - apply store_follows_toot_none. repeat constructor.
  - apply store_follows_toot_none. repeat constructor.
  - apply store_follows_toot_none. shape_cases; repeat constructor.
  - intros pre link hash now' r rest Heq.
    set (text := tootContent post conf isUpdate) in *.
    assert (Hsplit :
      ([EvQuery (Link post) None] ++ updateLog post isUpdate
       ++ [EvToot (MastodonURL conf) (MastodonAccessToken conf) text None])
      ++ EvUpsert (Link post) (fingerprint (Content post)) now rerr
      :: (storeLog rerr ++ blueskyEvents post conf text berr
          ++ threadsEvents post conf text terr)
      = pre ++ EvUpsert link hash now' r :: rest).
    { rewrite <- Heq, <- !app_assoc. reflexivity. }
    apply (split_at_unique is_record) in Hsplit; try reflexivity.
    + destruct Hsplit as (-> & _ & _).
      exists ([EvQuery (Link post) None] ++ updateLog post isUpdate),
        (MastodonURL conf), (MastodonAccessToken conf), text.
      rewrite <- !app_assoc. reflexivity.
    + shape_cases; repeat constructor.
    + shape_cases; repeat constructor.
Qed.

(** X2. In the events of [Run], every call to [db.StoreTootedPost] comes
    right after a call to [mastodon.TootPost] that succeeded: the table is
    never written ahead of a toot or after a failed one. *)
Theorem Run_store_follows_toot conf n env st :
  store_follows_toot (emitted (rss2socials.Run conf n) env st).
Proof.
  apply (lift_Run (fun _ _ evs => store_follows_toot evs)).
  - intros _. apply store_follows_toot_none. constructor.
  - intros _ _ _ evs1 evs2. apply store_follows_toot_app.
  - intros _ ev Hev. apply store_follows_toot_none.
    repeat constructor. destruct ev; try reflexivity; discriminate.
  - intros post env' st'. apply handlePost_store_follows_toot.
Qed.

(** *** Round trips through the table *)

(** The first event of [handlePost] is the lookup, with the outcome the
    storage layer gives it. *)
Lemma handlePost_query env post conf st :
  exists rest,
    emitted (rss2socials.handlePost post conf) env st
    = EvQuery (Link post) (db_fault env (hist st)) :: rest.
Proof.
  destruct st as [t h].
  unfold emitted, exec, rss2socials.handlePost. run_m.
  rewrite HasPostChanged_run. simpl.
  destruct (db_fault env h) as [e|] eqn:Hq; simpl.
  - rewrite <- ?app_assoc, drop_hist. eexists. reflexivity.
  - destruct (classification t (Link post) (Content post)) as [ex up].
    destruct ex, up; simpl; try step_callee;
      try (rewrite <- ?app_assoc, drop_hist; eexists; reflexivity).
    all: destruct terr as [e|]; run_m;
      try (rewrite <- ?app_assoc, drop_hist; eexists; reflexivity).
    all: step_callee; destruct rerr as [re|]; simpl.
    all: destruct (negb (BlueskyHandle conf =? "") && negb (BlueskyPassword conf =? ""));
      simpl; [step_callee; destruct berr as [be|]; simpl|].
    all: destruct (negb (ThreadsUserID conf =? "") && negb (ThreadsToken conf =? ""));
      simpl; [step_callee; destruct therr as [te|]; simpl|].
    all: rewrite <- ?app_assoc, drop_hist; eexists; reflexivity.
Qed.

(** A store that succeeded wrote the row of the item. *)
Lemma handlePost_stored env post conf st link hash now :
  In (EvUpsert link hash now None) (emitted (rss2socials.handlePost post conf) env st) ->
  link = Link post /\ hash = fingerprint (Content post)
  /\ rows (exec (rss2socials.handlePost post conf) env st)
     = <[Link post := mkRecord (fingerprint (Content post)) now]> (rows st).
Proof.
  intros Hin.
  destruct (handlePost_emitted env post conf st) as [_ Hshape].
  destruct Hshape as [(e0 & Hevs & Hrows) | [(Hevs & Hrows & Hc)
                     | [(isUpdate & e0 & Hc & Hevs & Hrows)
                     | (isUpdate & now' & rerr & berr & terr & Hc & Hevs & Hrows)]]];
    rewrite Hevs in Hin.
  - simpl in Hin. intuition discriminate.
  - simpl in Hin. intuition discriminate.
  - exfalso. shape_cases; intuition discriminate.
  - assert (Heq : EvUpsert link hash now None
                  = EvUpsert (Link post) (fingerprint (Content post)) now' rerr).
    { clear - Hin. shape_cases; intuition (try discriminate; congruence). }
    injection Heq as -> -> -> <-. auto.
Qed.

(** X3. Once [handlePost] has tooted an item and stored it, a later
    [handlePost] of an item with the same link and a content of the same
    fingerprint only looks the link up: nothing is published and the table
    stays as it is. *)
Theorem handlePost_published_once env post conf st link hash now :
  In (EvUpsert link hash now None) (emitted (rss2socials.handlePost post conf) env st) ->
  forall post2 conf2 env2 st2,
    Link post2 = Link post ->
    fingerprint (Content post2) = fingerprint (Content post) ->
    rows st2 = rows (exec (rss2socials.handlePost post conf) env st) ->
    db_fault env2 (hist st2) = None ->
    emitted (rss2socials.handlePost post2 conf2) env2 st2 = [EvQuery (Link post) None]
    /\ rows (exec (rss2socials.handlePost post2 conf2) env2 st2) = rows st2.
Proof.
  intros Hin post2 conf2 env2 st2 Hlink Hfp Hrows2 Hok.
  destruct (handlePost_stored _ _ _ _ _ _ _ Hin) as (_ & _ & Hrows).
  assert (Hcl : classification (rows st2) (Link post2) (Content post2) = (true, false)).
  { unfold classification. rewrite Hrows2, Hrows, Hlink, lookup_insert_eq. simpl.
    rewrite Hfp, String.eqb_refl. reflexivity. }
  destruct (handlePost_query env2 post2 conf2 st2) as [rest Hq]. rewrite Hok in Hq.
  destruct (handlePost_emitted env2 post2 conf2 st2) as [_ Hshape].
  destruct Hshape as [(e0 & Hevs & Hr) | [(Hevs & Hr & Hc)
                     | [(isUpdate & e0 & Hc & Hevs & Hr)
                     | (isUpdate & now' & rerr & berr & terr & Hc & Hevs & Hr)]]].
  - rewrite Hevs in Hq. discriminate.
  - rewrite Hevs, Hlink. auto.
  - rewrite Hcl in Hc. destruct isUpdate; discriminate.
  - rewrite Hcl in Hc. destruct isUpdate; discriminate.
Qed.

(** X4. Once [handlePost] has tooted an item and stored it, a later
    [handlePost] of an item with the same link and a content of another
    fingerprint announces an update: it logs the update and toots the update
    text; when that toot and its store succeed, the row of the link holds the
    new fingerprint. *)
Theorem handlePost_update_after_publish env post conf st link hash now :
  In (EvUpsert link hash now None) (emitted (rss2socials.handlePost post conf) env st) ->
  forall post2 conf2 env2 st2,
    Link post2 = Link post ->
    fingerprint (Content post2) <> fingerprint (Content post) ->
    rows st2 = rows (exec (rss2socials.handlePost post conf) env st) ->
    db_fault env2 (hist st2) = None ->
    (exists r rest,
        emitted (rss2socials.handlePost post2 conf2) env2 st2
        = [EvQuery (Link post) None;
           EvLog InfoLevel ("Post has been updated: " ++ Title post2);
           EvToot (MastodonURL conf2) (MastodonAccessToken conf2)
                  ("Blog post has been updated: " ++ Link post) r]
          ++ rest)
    /\ (forall link2 hash2 now2,
          In (EvUpsert link2 hash2 now2 None)
             (emitted (rss2socials.handlePost post2 conf2) env2 st2) ->
          rows (exec (rss2socials.handlePost post2 conf2) env2 st2) !! Link post
          = Some (mkRecord (fingerprint (Content post2)) now2)).
Proof.
  intros Hin post2 conf2 env2 st2 Hlink Hfp Hrows2 Hok.
  destruct (handlePost_stored _ _ _ _ _ _ _ Hin) as (_ & _ & Hrows).
  assert (Hcl : classification (rows st2) (Link post2) (Content post2) = (true, true)).
  { unfold classification. rewrite Hrows2, Hrows, Hlink, lookup_insert_eq. simpl.
    destruct (String.eqb_spec (fingerprint (Content post)) (fingerprint (Content post2)));
      [congruence | reflexivity]. }
  split.
  - destruct (handlePost_query env2 post2 conf2 st2) as [rest Hq]. rewrite Hok in Hq.
    destruct (handlePost_emitted env2 post2 conf2 st2) as [_ Hshape].
    destruct Hshape as [(e0 & Hevs & Hr) | [(Hevs & Hr & Hc)
                       | [(isUpdate & e0 & Hc & Hevs & Hr)
                       | (isUpdate & now' & rerr & berr & terr & Hc & Hevs & Hr)]]].
    + rewrite Hevs in Hq. discriminate.
    + rewrite Hcl in Hc. discriminate.
    + rewrite Hcl in Hc. injection Hc as <-. rewrite Hevs.
      unfold tootContent, updateLog. simpl. rewrite !Hlink.
      eexists _, _. reflexivity.
    + rewrite Hcl in Hc. injection Hc as <-. rewrite Hevs.
      unfold tootContent, updateLog. simpl. rewrite !Hlink.
      eexists _, _. reflexivity.
  - intros link2 hash2 now2 Hin2.
    destruct (handlePost_stored _ _ _ _ _ _ _ Hin2) as (_ & _ & ->).
    rewrite Hlink. apply lookup_insert_eq.
Qed.

(** X5. A [db.StoreTootedPost] that succeeds is an upsert: the row of the
    link holds the fingerprint of the content, every other row is what it
    was, and the table has one row more only when the link had none. *)
Theorem StoreTootedPost_upsert env st link content :
  (db.StoreTootedPost link content env st).1 = None ->
  (exists now,
      rows (exec (db.StoreTootedPost link content) env st) !! link
      = Some (mkRecord (fingerprint content) now))
  /\ (forall other, other <> link ->
        rows (exec (db.StoreTootedPost link content) env st) !! other = rows st !! other)
  /\ size (rows (exec (db.StoreTootedPost link content) env st))
     = match rows st !! link with
       | Some _ => size (rows st)
       | None => S (size (rows st))
       end.
Proof.
  intros Hok. destruct (StoreTootedPost_success _ _ _ _ Hok) as [now ->].
  split; [exists now; apply lookup_insert_eq|]. split.
  - intros other Hne. apply lookup_insert_ne. congruence.
  - destruct (rows st !! link) as [r|] eqn:Hl.
    + apply map_size_insert_Some. eauto.
    + apply map_size_insert_None. exact Hl.
Qed.

(** *** What the publishers are called with *)

Lemma GetTootContent_ends_with_link post skip :
  exists pre, mastodon.GetTootContent post skip = (pre ++ Link post)%string.
Proof.
  induction skip as [|cat cats IH].
  - exists "New blog post: ". reflexivity.
  - change (mastodon.GetTootContent post (cat :: cats))
      with (if strings.HasPrefix (Title post) cat
            then Content post ++ " - " ++ Link post
            else mastodon.GetTootContent post cats)%string.
    destruct (strings.HasPrefix (Title post) cat); [|exact IH].
    exists (Content post ++ " - ")%string.
    induction (Content post) as [|c s IHs]; [reflexivity|].
    change ((String c s ++ " - " ++ Link post)%string)
      with (String c (s ++ " - " ++ Link post)%string).
    rewrite IHs. reflexivity.
Qed.

Lemma tootContent_ends_with_link post conf isUpdate :
  exists pre, tootContent post conf isUpdate = (pre ++ Link post)%string.
Proof.
  destruct isUpdate; [|apply GetTootContent_ends_with_link].
  exists "Blog post has been updated: ". reflexivity.
Qed.

Lemma handlePost_texts env post conf st :
  exists isUpdate,
    forall ev t,
      In ev (emitted (rss2socials.handlePost post conf) env st) ->
      event_text ev = Some t -> t = tootContent post conf isUpdate.
Proof.
  destruct (handlePost_emitted env post conf st) as [_ Hshape].
  destruct Hshape as [(e0 & Hevs & Hrows) | [(Hevs & Hrows & Hc)
                     | [(isUpdate & e0 & Hc & Hevs & Hrows)
                     | (isUpdate & now & rerr & berr & terr & Hc & Hevs & Hrows)]]];
    rewrite Hevs.
  - exists false. intros ev t Hin Ht. simpl in Hin.
    destruct Hin as [<- | [<- | []]]; discriminate.
  - exists false. intros ev t Hin Ht. simpl in Hin.
    destruct Hin as [<- | []]; discriminate.
  - exists isUpdate. intros ev t Hin Ht. revert Hin Ht.
    set (text := tootContent post conf isUpdate). clearbody text.
    shape_cases; intuition (subst; simpl in *; congruence).
  - exists isUpdate. intros ev t Hin Ht. revert Hin Ht.
    set (text := tootContent post conf isUpdate). clearbody text.
    shape_cases; intuition (subst; simpl in *; congruence).
Qed.

(** X6. Within one [handlePost], Mastodon, Bluesky and Threads are all
    called with the same text, and that text ends with the link of the
    item. *)
Theorem handlePost_one_text env post conf st ev t :
  In ev (emitted (rss2socials.handlePost post conf) env st) ->
  event_text ev = Some t ->
  (exists pre, t = (pre ++ Link post)%string)
  /\ forall ev' t',
      In ev' (emitted (rss2socials.handlePost post conf) env st) ->
      event_text ev' = Some t' -> t' = t.
Proof.
  intros Hin Ht. destruct (handlePost_texts env post conf st) as [isUpdate H].
  rewrite (H ev t Hin Ht). split; [apply tootContent_ends_with_link|].
  intros ev' t' Hin' Ht'. exact (H ev' t' Hin' Ht').
Qed.

Lemma handlePost_has_credentials post conf env st :
  Forall (fun ev => has_credentials ev = true)
    (emitted (rss2socials.handlePost post conf) env st).
Proof.
  destruct (handlePost_emitted env post conf st) as [_ Hshape].
  destruct Hshape as [(e0 & Hevs & Hrows) | [(Hevs & Hrows & Hc)
                     | [(isUpdate & e0 & Hc & Hevs & Hrows)
                     | (isUpdate & now & rerr & berr & terr & Hc & Hevs & Hrows)]]];
    rewrite Hevs.
  - repeat constructor.
  - repeat constructor.
  - shape_cases; repeat constructor.
  - shape_lists.
    destruct (blueskyConfigured conf) eqn:Hb, (threadsConfigured conf) eqn:Ht;
      destruct isUpdate, rerr, berr, terr; simpl;
      repeat (apply Forall_cons; split; [first [reflexivity | exact Hb | exact Ht]|]);
      constructor.
Qed.

(** X7. [Run] calls Bluesky only with a handle and a password that are not
    empty, and Threads only with a user id and a token that are not empty. *)
Theorem Run_secondaries_have_credentials conf n env st :
  Forall (fun ev => has_credentials ev = true)
    (emitted (rss2socials.Run conf n) env st).
Proof.
  apply (lift_Run (fun _ _ evs => Forall (fun ev => has_credentials ev = true) evs)).
  - intros _. constructor.
  - intros _ _ _ evs1 evs2 H1 H2. apply Forall_app. auto.
  - intros _ ev Hev. repeat constructor. destruct ev; try reflexivity; discriminate.
  - intros post env' st'. apply handlePost_has_credentials.
Qed.

Lemma TootPost_no_credentials url token content env st :
  url = "" \/ token = "" ->
  mastodon.TootPost url token content env st
  = (Some no_mastodon_credentials,
     mkState (rows st)
       (hist st ++ [EvToot url token content (Some no_mastodon_credentials)])).
Proof.
  intros Hc. unfold mastodon.TootPost. run_m.
  assert (Hb : (url =? "") || (token =? "") = true).
  { destruct Hc as [-> | ->]; [reflexivity|]. apply orb_true_r. }
  rewrite Hb. reflexivity.
Qed.

Lemma handlePost_no_credentials post conf env st :
  MastodonURL conf = "" \/ MastodonAccessToken conf = "" ->
  rows (exec (rss2socials.handlePost post conf) env st) = rows st
  /\ Forall (fun ev => is_record ev = false /\ is_secondary ev = false
                       /\ forall url token text r,
                           ev = EvToot url token text r ->
                           r = Some no_mastodon_credentials)
       (emitted (rss2socials.handlePost post conf) env st).
Proof.
  intros Hc. destruct st as [t h].
  unfold emitted, exec, rss2socials.handlePost. run_m.
  rewrite HasPostChanged_run. simpl.
  destruct (db_fault env h) as [e|]; simpl.
  - rewrite <- ?app_assoc, drop_hist. simpl.
    split; [reflexivity|]. repeat constructor; discriminate.
  - destruct (classification t (Link post) (Content post)) as [ex up].
    destruct ex, up; simpl; rewrite ?(TootPost_no_credentials _ _ _ _ _ Hc); simpl;
      rewrite <- ?app_assoc, drop_hist; simpl;
      (split; [reflexivity|]); repeat constructor; try discriminate;
      intros url token text r Heq; injection Heq as _ _ _ <-; reflexivity.
Qed.

(** X8. Without a Mastodon URL or without a Mastodon token, [Run] never
    writes the table and never calls Bluesky or Threads, whatever the
    servers would answer: every toot fails the credential check of
    [mastodon.TootPost]. *)
Theorem Run_without_mastodon_credentials conf n env st :
  MastodonURL conf = "" \/ MastodonAccessToken conf = "" ->
  rows (exec (rss2socials.Run conf n) env st) = rows st
  /\ Forall (fun ev => is_record ev = false /\ is_secondary ev = false
                       /\ forall url token text r,
                           ev = EvToot url token text r ->
                           r = Some no_mastodon_credentials)
       (emitted (rss2socials.Run conf n) env st).
Proof.
  intros Hc.
  assert (Hc' : MastodonURL (effective conf) = ""
                \/ MastodonAccessToken (effective conf) = "").
  { unfold effective. destruct (Interval conf <=? 0)%Z; exact Hc. }
  pose (Q := fun ev => is_record ev = false /\ is_secondary ev = false
                       /\ forall url token text r,
                           ev = EvToot url token text r ->
                           r = Some no_mastodon_credentials).
  apply (lift_Run (fun t t' evs => t' = t /\ Forall Q evs)).
  - intros t. split; [reflexivity | constructor].
  - intros t1 t2 t3 evs1 evs2 [-> H1] [-> H2]. split; [reflexivity|].
    apply Forall_app. auto.
  - intros t ev Hev. split; [reflexivity|]. repeat constructor;
      destruct ev; try reflexivity; try discriminate.
  - intros post env' st'. apply handlePost_no_credentials. exact Hc'.
Qed.

(** X9. For one item [handlePost] makes exactly one lookup, at most one
    toot, at most one store, at most one call to Bluesky and at most one to
    Threads: nothing is tried twice. *)
Theorem handlePost_calls_once env post conf st :
  let evs := emitted (rss2socials.handlePost post conf) env st in
  length (List.filter is_query evs) = 1
  /\ length (List.filter is_primary evs) <= 1
  /\ length (List.filter is_record evs) <= 1
  /\ length (List.filter is_bluesky evs) <= 1
  /\ length (List.filter is_threads evs) <= 1.
Proof.
  simpl.
  destruct (handlePost_emitted env post conf st) as [_ Hshape].
  destruct Hshape as [(e0 & Hevs & Hrows) | [(Hevs & Hrows & Hc)
                     | [(isUpdate & e0 & Hc & Hevs & Hrows)
                     | (isUpdate & now & rerr & berr & terr & Hc & Hevs & Hrows)]]];
    rewrite Hevs; clear Hevs.
  - simpl. lia.
  - simpl. lia.
  - shape_cases; lia.
  - shape_cases; lia.
Qed.

(** *** The items of a pass *)

(** X10. In a pass, the links looked up in the table are those of the
    fetched items that pass the category filter, once each and in the order
    of the feed. *)
Theorem processPosts_lookups posts conf env st :
  lookups (emitted (rss2socials.processPosts posts conf) env st)
  = map Link (List.filter (passes_filter conf) posts).
Proof.
  revert st. induction posts as [|p rest IH]; intros st.
  - simpl. rewrite emitted_ret. reflexivity.
  - destruct (emitted_processPosts_cons p rest conf env st) as [-> _].
    rewrite lookups_app, IH. simpl.
    destruct (processPost_cases p conf) as [[-> ->] | [-> ->]].
    + rewrite handlePost_lookups. reflexivity.
    + unfold log.Debugf. rewrite emitted_emit. reflexivity.
Qed.

(** *** The category filter as a substring test *)

Lemma append_cons c (s1 s2 : string) :
  (String c s1 ++ s2)%string = String c (s1 ++ s2)%string.
Proof. reflexivity. Qed.

Lemma prefix_spec (p s : string) :
  String.prefix p s = true <-> exists b, s = (p ++ b)%string.
Proof.
  revert s. induction p as [|c p IH]; intros s.
  - split; [intros _; exists s; reflexivity | intros _; apply prefix_empty].
  - destruct s as [|c' s]; simpl.
    + split; [discriminate | intros [b Hb]; discriminate].
    + destruct (ascii_dec c c') as [<- | Hne].
      * rewrite IH. split; intros [b Hb]; exists b.
        -- rewrite append_cons, Hb. reflexivity.
        -- rewrite append_cons in Hb. congruence.
      * split; [discriminate|]. intros [b Hb]. rewrite append_cons in Hb. congruence.
Qed.

Lemma Contains_unfold (s sub : string) :
  strings.Contains s sub
  = if String.prefix sub s then true
    else match s with
         | EmptyString => false
         | String _ s' => strings.Contains s' sub
         end.
Proof. destruct s; reflexivity. Qed.

Lemma Contains_spec (s sub : string) :
  strings.Contains s sub = true <-> exists a b, s = (a ++ sub ++ b)%string.
Proof.
  split.
  - induction s as [|c s IH]; rewrite Contains_unfold;
      destruct (String.prefix sub _) eqn:Hp.
    + intros _. apply prefix_spec in Hp. destruct Hp as [b Hb]. exists "", b. exact Hb.
    + discriminate.
    + intros _. apply prefix_spec in Hp. destruct Hp as [b Hb]. exists "", b. exact Hb.
    + intros H. destruct (IH H) as (a & b & ->). exists (String c a), b. reflexivity.
  - intros (a & b & ->). induction a as [|c a IH]; rewrite Contains_unfold.
    + change ("" ++ sub ++ b)%string with (sub ++ b)%string.
      assert (Hp : String.prefix sub (sub ++ b) = true) by (apply prefix_spec; eauto).
      rewrite Hp. reflexivity.
    + rewrite append_cons. destruct (String.prefix sub _); [reflexivity | exact IH].
Qed.

(** X11. With a category configured, the loop of [Run] looks an item up in
    the table exactly when the category occurs as a substring of
    [path.Base] of the item's link. *)
Theorem category_filter_is_substring post conf env st :
  Category conf <> "" ->
  (In (EvQuery (Link post) (db_fault env (hist st)))
      (emitted (rss2socials.processPost post conf) env st)
   <-> exists a b, path.Base (Link post) = (a ++ Category conf ++ b)%string).
Proof.
  intros Hcat. apply String.eqb_neq in Hcat.
  rewrite <- Contains_spec.
  destruct (processPost_cases post conf) as [[Hp ->] | [Hp ->]];
    unfold passes_filter in Hp; rewrite Hcat in Hp; simpl in Hp; rewrite Hp.
  - split; [reflexivity|]. intros _.
    destruct (handlePost_query env post conf st) as [rest ->]. left. reflexivity.
  - split; [|discriminate]. unfold log.Debugf. rewrite emitted_emit.
    intros [Heq | []]. discriminate.
Qed.

(** *** The sleep between passes *)

(** X12. Up to 153722867 minutes the sleep of [Run] lasts the effective
    interval and is positive; from 153722868 to 307445734 minutes the
    [int64] product with [time.Minute] wraps and the duration handed to
    [time.Sleep] is negative. *)
Theorem Run_sleep_bounds conf n env st d :
  In (EvSleep d) (emitted (rss2socials.Run conf n) env st) ->
  ((Interval conf <= 153722867)%Z ->
     d = ((if (Interval conf <=? 0)%Z then 60 else Interval conf) * 60000000000)%Z
     /\ (0 < d)%Z)
  /\ ((153722867 < Interval conf <= 307445734)%Z -> (d < 0)%Z).
Proof.
  intros Hin. pose proof (sleeps_Run conf n env st d Hin) as Hd.
  unfold rss2socials.wrap64, rss2socials.Minute in Hd.
  replace (2 ^ 63)%Z with 9223372036854775808%Z in Hd by reflexivity.
  replace (2 ^ 64)%Z with 18446744073709551616%Z in Hd by reflexivity.
  split.
  - intros Hle. destruct (Z.leb_spec (Interval conf) 0) as [H0 | H0].
    + rewrite Hd. split; reflexivity.
    + rewrite Z.mod_small in Hd by lia. lia.
  - intros [Hlo Hhi]. destruct (Z.leb_spec (Interval conf) 0) as [H0 | H0]; [lia|].
    assert (Hm : ((Interval conf * 60000000000 + 9223372036854775808)
                  mod 18446744073709551616
                  = Interval conf * 60000000000 + 9223372036854775808
                    - 18446744073709551616)%Z).
    { symmetry. apply (Z.mod_unique _ _ 1); lia. }
    rewrite Hm in Hd. lia.
Qed.

(** *** The formatter *)

(** X14. [mastodon.GetTootContent] depends on the skip-prefix categories as
    a set only: their order and their repetitions do not change the text. *)
Theorem GetTootContent_set post skip skip' :
  (forall cat, In cat skip <-> In cat skip') ->
  mastodon.GetTootContent post skip = mastodon.GetTootContent post skip'.
Proof.
  intros Hset. rewrite !GetTootContent_format. unfold format_spec.
  assert (He : existsb (fun cat => String.prefix cat (Title post)) skip
               = existsb (fun cat => String.prefix cat (Title post)) skip').
  { apply eq_true_iff_eq. rewrite !existsb_exists.
    split; intros (cat & Hin & Hp); exists cat; (split; [apply Hset, Hin | exact Hp]). }
  rewrite He. reflexivity.
Qed.

(** *** The fingerprint *)

Lemma length_round st kw : length (sha256.round st kw) = length st.
Proof.
  unfold sha256.round.
  destruct st as [|a [|b [|c [|d [|e [|f [|g [|h [|i st]]]]]]]]]; reflexivity.
Qed.

Lemma length_rounds l h : length (fold_left sha256.round l h) = length h.
Proof.
  revert h. induction l as [|kw l IH]; intros h; [reflexivity|].
  simpl. rewrite IH. apply length_round.
Qed.

Lemma length_block h bs : length (sha256.block h bs) = length h.
Proof.
  unfold sha256.block. rewrite List.length_map, List.length_combine, length_rounds.
  apply Nat.min_id.
Qed.

Lemma length_blocks n h bs : length (sha256.blocks n h bs) = length h.
Proof.
  revert h bs. induction n as [|n IH]; intros h bs; [reflexivity|].
  simpl. rewrite IH. apply length_block.
Qed.

Lemma length_be_bytes n x : length (sha256.be_bytes n x) = n.
Proof. unfold sha256.be_bytes. rewrite List.length_map. apply List.length_seq. Qed.

Lemma be_bytes_bytes n x : Forall is_byte (sha256.be_bytes n x).
Proof.
  unfold sha256.be_bytes. apply List.Forall_forall. intros b Hb.
  apply List.in_map_iff in Hb. destruct Hb as (i & <- & _).
  unfold is_byte. apply Z.mod_pos_bound. lia.
Qed.

Lemma flat_be_bytes_shape (ws : list Z) :
  length (flat_map (sha256.be_bytes 4) ws) = 4 * length ws
  /\ Forall is_byte (flat_map (sha256.be_bytes 4) ws).
Proof.
  induction ws as [|w ws [IHl IHb]]; [split; [reflexivity | constructor]|].
  change (flat_map (sha256.be_bytes 4) (w :: ws))
    with (sha256.be_bytes 4 w ++ flat_map (sha256.be_bytes 4) ws).
  split.
  - rewrite List.length_app, length_be_bytes, IHl. simpl. lia.
  - apply Forall_app. split; [apply be_bytes_bytes | exact IHb].
Qed.

Lemma Sum256_shape data :
  length (sha256.Sum256 data) = 32 /\ Forall is_byte (sha256.Sum256 data).
Proof.
  unfold sha256.Sum256.
  destruct (flat_be_bytes_shape
              (sha256.blocks (length (sha256.pad data) / 64) sha256.init (sha256.pad data)))
    as [Hl Hb].
  split; [|exact Hb]. rewrite Hl, length_blocks. reflexivity.
Qed.

Lemma hex_cons b bs :
  fmt.hex (b :: bs)
  = String (fmt.hexdigit (b / 16)) (String (fmt.hexdigit (b mod 16)) (fmt.hex bs)).
Proof. reflexivity. Qed.

Lemma length_hex bs : String.length (fmt.hex bs) = 2 * length bs.
Proof.
  induction bs as [|b bs IH]; [reflexivity|].
  rewrite hex_cons. simpl. rewrite IH. lia.
Qed.

Lemma length_fingerprint content : String.length (fingerprint content) = 64.
Proof.
  unfold fingerprint, rss.HashContent.
  rewrite length_hex. destruct (Sum256_shape (bytes_of_string content)) as [-> _].
  reflexivity.
Qed.

(** X15. The fingerprint of any content is the 32 bytes of its digest
    written as 64 hexadecimal digits. *)
Theorem fingerprint_width content :
  length (rss.HashContent content) = 32
  /\ Forall is_byte (rss.HashContent content)
  /\ String.length (fingerprint content) = 64.
Proof.
  unfold fingerprint, rss.HashContent.
  destruct (Sum256_shape (bytes_of_string content)) as [Hl Hb].
  split; [exact Hl|]. split; [exact Hb|].
  rewrite length_hex, Hl. reflexivity.
Qed.

Lemma hexdigit_inj x y :
  (0 <= x < 16)%Z -> (0 <= y < 16)%Z ->
  fmt.hexdigit x = fmt.hexdigit y -> x = y.
Proof.
  intros Hx Hy.
  assert (Ex : x = Z.of_nat (Z.to_nat x)) by lia.
  assert (Ey : y = Z.of_nat (Z.to_nat y)) by lia.
  assert (Bx : Z.to_nat x < 16) by lia.
  assert (By : Z.to_nat y < 16) by lia.
  unfold fmt.hexdigit. rewrite Ex, Ey, !Nat2Z.id.
  generalize dependent (Z.to_nat y). generalize dependent (Z.to_nat x).
  intros i _ Hi j _ Hj.
  do 16 (destruct i as [|i]; [do 16 (destruct j as [|j];
           [first [reflexivity | discriminate]|]); lia|]).
  lia.
Qed.

Lemma hex_inj a b :
  Forall is_byte a -> Forall is_byte b -> fmt.hex a = fmt.hex b -> a = b.
Proof.
  intros Ha. revert b. induction Ha as [|x a Hx Ha IH]; intros b Hb Heq.
  - destruct b; [reflexivity | discriminate].
  - destruct Hb as [|y b Hy Hb]; [discriminate|].
    rewrite !hex_cons in Heq. injection Heq as Hhi Hlo Hrest.
    unfold is_byte in Hx, Hy.
    apply hexdigit_inj in Hhi;
      [|split; [apply Z.div_pos | apply Z.div_lt_upper_bound]; lia
       |split; [apply Z.div_pos | apply Z.div_lt_upper_bound]; lia].
    apply hexdigit_inj in Hlo; [|apply Z.mod_pos_bound; lia | apply Z.mod_pos_bound; lia].
    f_equal; [|apply IH; assumption].
    rewrite (Z.div_mod x 16), (Z.div_mod y 16) by lia. congruence.
Qed.

(** X16. The hexadecimal text kept in the table loses nothing of the
    digest: two contents have the same fingerprint exactly when they have
    the same SHA-256 digest, so [db.HasPostChanged] reports a stored post as
    updated exactly when the digest of the content differs from the digest
    that was stored. *)
Theorem fingerprint_faithful c1 c2 :
  (fingerprint c1 = fingerprint c2 <-> rss.HashContent c1 = rss.HashContent c2)
  /\ forall env st link,
      (db.StoreTootedPost link c1 env st).1 = None ->
      forall env2 st2,
        rows st2 = rows (exec (db.StoreTootedPost link c1) env st) ->
        db_fault env2 (hist st2) = None ->
        ((db.HasPostChanged link c2 env2 st2).1 = (true, true, None)
         <-> rss.HashContent c1 <> rss.HashContent c2).
Proof.
  assert (Hfp : fingerprint c1 = fingerprint c2 <-> rss.HashContent c1 = rss.HashContent c2).
  { split; [|intros H; unfold fingerprint; rewrite H; reflexivity].
    intros H. unfold rss.HashContent.
    apply hex_inj; [apply Sum256_shape | apply Sum256_shape | exact H]. }
  split; [exact Hfp|].
  intros env st link Hstore env2 st2 Hrows Hok.
  destruct (StoreTootedPost_success _ _ _ _ Hstore) as [now Hins].
  rewrite (HasPostChanged_ok _ _ _ _ Hok). unfold classification.
  rewrite Hrows, Hins, lookup_insert_eq. simpl. rewrite <- Hfp.
  destruct (String.eqb_spec (fingerprint c1) (fingerprint c2)) as [Heq | Hne]; simpl.
  - split; [discriminate | congruence].
  - split; [intros _; exact Hne | reflexivity].
Qed.

(** *** Starting and failing to start *)

Lemma loop_no_startup_events n conf env st :
  Forall (fun ev => match ev with EvOpen _ | EvCreateTable _ => False | _ => True end)
    (emitted (rss2socials.loop n conf) env st).
Proof.
  pose (Q := fun ev => match ev with EvOpen _ | EvCreateTable _ => False | _ => True end).
  apply (lift_loop (fun _ _ evs => Forall Q evs)).
  - intros _. constructor.
  - intros _ _ _ evs1 evs2 H1 H2. apply Forall_app. auto.
  - intros _ ev Hev. repeat constructor. destruct ev; try exact I; discriminate.
  - intros post env' st'.
    destruct (handlePost_emitted env' post conf st') as [_ Hshape].
    destruct Hshape as [(e0 & Hevs & Hrows) | [(Hevs & Hrows & Hc)
                       | [(isUpdate & e0 & Hc & Hevs & Hrows)
                       | (isUpdate & now & rerr & berr & terr & Hc & Hevs & Hrows)]]];
      rewrite Hevs; shape_cases; repeat constructor.
Qed.

Lemma InitDB_failed env st e :
  In (EvOpen (Some e)) (emitted db.InitDB env st)
  \/ In (EvCreateTable (Some e)) (emitted db.InitDB env st) ->
  (db.InitDB env st).1 = false
  /\ exists pre msg, emitted db.InitDB env st = pre ++ [EvLog FatalLevel msg].
Proof.
  unfold emitted, exec, db.InitDB. run_m.
  destruct (db_open env (hist st)) as [e1|]; simpl.
  - rewrite <- app_assoc, drop_hist. simpl. intros _. split; [reflexivity|].
    exists [EvOpen (Some e1)]. eexists. reflexivity.
  - destruct (db_fault env _) as [e2|]; simpl; rewrite <- ?app_assoc, drop_hist; simpl.
    + intros _. split; [reflexivity|].
      exists [EvOpen None; EvCreateTable (Some e2)]. eexists. reflexivity.
    + intros [[H | [H | []]] | [H | [H | []]]]; discriminate.
Qed.

(** X13. When the feed URL is empty, or the database cannot be opened, or
    its table cannot be created, [Run] ends on a fatal log line: it fetches
    nothing, looks nothing up, publishes nothing, never sleeps and leaves
    the table as it is. *)
Theorem Run_startup_failure conf n env st :
  FeedURL conf = ""
  \/ (exists e, In (EvOpen (Some e)) (emitted (rss2socials.Run conf n) env st))
  \/ (exists e, In (EvCreateTable (Some e)) (emitted (rss2socials.Run conf n) env st)) ->
  (exists pre msg, emitted (rss2socials.Run conf n) env st = pre ++ [EvLog FatalLevel msg])
  /\ Forall (fun ev => is_fetch ev = false /\ is_item_effect ev = false
                       /\ is_sleep ev = false)
       (emitted (rss2socials.Run conf n) env st)
  /\ rows (exec (rss2socials.Run conf n) env st) = rows st.
Proof.
  intros Hfail.
  destruct (String.eqb_spec (FeedURL conf) "") as [Hurl | Hurl].
  { unfold emitted, exec. rewrite (Run_no_url conf n env st Hurl). simpl.
    rewrite drop_hist. split; [exists []; eexists; reflexivity|].
    split; [repeat constructor | reflexivity]. }
  destruct Hfail as [Hfail | Hfail]; [contradiction|].
  destruct (Run_unfold conf n env st Hurl) as [Hevs Hrows].
  set (pre := if (Interval conf <=? 0)%Z
              then [EvLog ErrorLevel "Interval must be a positive integer"] else []) in *.
  set (st1 := mkState (rows st) (hist st ++ pre)) in *.
  assert (Hinit : exists e, In (EvOpen (Some e)) (emitted db.InitDB env st1)
                            \/ In (EvCreateTable (Some e)) (emitted db.InitDB env st1)).
  { assert (Hpre : forall ev, In ev pre -> is_log ev = true).
    { subst pre. destruct (Interval conf <=? 0)%Z; simpl; intuition (subst; reflexivity). }
    assert (Hloop : forall ev,
               In ev (if (db.InitDB env st1).1
                      then emitted (rss2socials.loop n (effective conf)) env
                             (exec db.InitDB env st1)
                      else []) ->
               match ev with EvOpen _ | EvCreateTable _ => False | _ => True end).
    { destruct (db.InitDB env st1).1; [|intros ev []].
      apply List.Forall_forall. apply loop_no_startup_events. }
    destruct Hfail as [[e Hin] | [e Hin]]; exists e; rewrite Hevs in Hin;
      apply in_app_or in Hin; destruct Hin as [Hin | Hin];
      try (apply Hpre in Hin; discriminate);
      apply in_app_or in Hin; destruct Hin as [Hin | Hin]; auto;
      apply Hloop in Hin; contradiction. }
  destruct Hinit as [e Hinit].
  destruct (InitDB_failed env st1 e Hinit) as (Hfalse & pre' & msg & Hinit_evs).
  rewrite Hfalse in Hevs, Hrows. rewrite app_nil_r in Hevs.
  split; [|split].
  - exists (pre ++ pre'), msg. rewrite Hevs, Hinit_evs, app_assoc. reflexivity.
  - rewrite Hevs. apply Forall_app. split.
    + subst pre. destruct (Interval conf <=? 0)%Z; repeat constructor.
    + eapply Forall_impl; [apply InitDB_events|]. simpl. intros ev (H1 & H2 & H3). auto.
  - exact Hrows.
Qed.

(** *** The notifier *)

(** X17. [gotify.logFailure] always logs the failure first; it sends one
    notification when both the Gotify URL and the Gotify token are set and
    none otherwise; a notification that fails is logged and goes no
    further; the table is not touched. *)
Theorem logFailure_behaviour message err conf env st :
  let evs := emitted (gotify.logFailure message err conf) env st in
  (exists rest, evs = EvLog InfoLevel (message ++ ": " ++ err) :: rest)
  /\ length (List.filter is_alert evs)
     = (if negb (String.eqb (GotifyURL conf) "") && negb (String.eqb (GotifyToken conf) "")
        then 1 else 0)
  /\ (forall title msg e,
        In (EvGotify title msg (Some e)) evs ->
        In (EvLog InfoLevel ("Error sending Gotify notification: " ++ e)) evs)
  /\ Forall (fun ev => is_alert ev = true \/ is_log ev = true) evs
  /\ rows (exec (gotify.logFailure message err conf) env st) = rows st.
Proof.
  simpl. unfold emitted, exec, gotify.logFailure, gotify.sendGotifyNotification. run_m.
  destruct (GotifyURL conf =? ""); simpl.
  { rewrite drop_hist. simpl. split; [eexists; reflexivity|]. split; [reflexivity|].
    split; [intros title msg e [H | []]; discriminate|].
    split; [repeat (apply Forall_cons; split; [simpl; auto|]); constructor | reflexivity]. }
  destruct (GotifyToken conf =? ""); simpl.
  { rewrite drop_hist. simpl. split; [eexists; reflexivity|]. split; [reflexivity|].
    split; [intros title msg e [H | []]; discriminate|].
    split; [repeat (apply Forall_cons; split; [simpl; auto|]); constructor | reflexivity]. }
  destruct (gotify_api env _ message err) as [e'|]; simpl;
    rewrite <- ?app_assoc, drop_hist; simpl.
  - split; [eexists; reflexivity|]. split; [reflexivity|].
    split; [|split; [repeat (apply Forall_cons; split; [simpl; auto|]); constructor | reflexivity]].
    intros title msg e [H | [H | [H | []]]]; try discriminate.
    injection H as _ _ <-. auto.
  - split; [eexists; reflexivity|]. split; [reflexivity|].
    split; [|split; [repeat (apply Forall_cons; split; [simpl; auto|]); constructor | reflexivity]].
    intros title msg e [H | [H | []]]; discriminate.
Qed.

(** *** Fetches and sleeps *)

Lemma filter_none {A : Type} (p : A -> bool) (l : list A) :
  Forall (fun x => p x = false) l -> List.filter p l = [].
Proof.
  induction 1 as [|x l Hx _ IH]; [reflexivity|]. simpl. rewrite Hx. exact IH.
Qed.

Lemma handlePost_item_events post conf env st :
  Forall (fun ev => is_fetch ev = false /\ is_sleep ev = false)
    (emitted (rss2socials.handlePost post conf) env st).
Proof.
  destruct (handlePost_emitted env post conf st) as [_ Hshape].
  destruct Hshape as [(e0 & Hevs & Hrows) | [(Hevs & Hrows & Hc)
                     | [(isUpdate & e0 & Hc & Hevs & Hrows)
                     | (isUpdate & now & rerr & berr & terr & Hc & Hevs & Hrows)]]];
    rewrite Hevs; shape_cases; repeat constructor.
Qed.

Lemma processPosts_item_events posts conf env st :
  Forall (fun ev => is_fetch ev = false /\ is_sleep ev = false)
    (emitted (rss2socials.processPosts posts conf) env st).
Proof.
  revert st. induction posts as [|p rest IH]; intros st.
  - simpl. rewrite emitted_ret. constructor.
  - destruct (emitted_processPosts_cons p rest conf env st) as [-> _].
    apply Forall_app. split; [|apply IH].
    destruct (processPost_cases p conf) as [[_ ->] | [_ ->]].
    + apply handlePost_item_events.
    + unfold log.Debugf. rewrite emitted_emit. repeat constructor.
Qed.

Lemma cycle_counts conf env st :
  let evs := emitted (rss2socials.cycle conf) env st in
  length (List.filter is_sleep evs) = length (List.filter is_fetch_ok evs)
  /\ length (List.filter is_fetch evs) = 1.
Proof.
  simpl. destruct (feed env (hist st) (FeedURL conf)) as [err|posts] eqn:Hfeed.
  - unfold emitted, exec. rewrite (cycle_fetch_failed conf env st err Hfeed).
    simpl. rewrite drop_hist. split; reflexivity.
  - destruct (cycle_fetched conf env st posts Hfeed) as [-> _].
    pose proof (processPosts_item_events posts conf env
                  (mkState (rows st) (hist st ++ [EvFetch (FeedURL conf) (inr posts)])))
      as Hitems.
    simpl. rewrite !List.filter_app.
    rewrite (filter_none is_sleep), (filter_none is_fetch), (filter_none is_fetch_ok).
    + split; reflexivity.
    + eapply Forall_impl; [exact Hitems|]. simpl. intros ev [Hf _].
      destruct ev; try reflexivity; discriminate.
    + eapply Forall_impl; [exact Hitems|]. simpl. intros ev [Hf _]. exact Hf.
    + eapply Forall_impl; [exact Hitems|]. simpl. intros ev [_ Hs]. exact Hs.
Qed.

Lemma loop_counts n conf env st :
  let evs := emitted (rss2socials.loop n conf) env st in
  length (List.filter is_sleep evs) = length (List.filter is_fetch_ok evs)
  /\ length (List.filter is_fetch evs) = n.
Proof.
  simpl. revert st. induction n as [|n IH]; intros st.
  - simpl. rewrite emitted_ret. split; reflexivity.
  - destruct (loop_S n conf env st) as [-> _].
    rewrite !List.filter_app, !List.length_app.
    destruct (cycle_counts conf env st) as [-> ->].
    destruct (IH (exec (rss2socials.cycle conf) env st)) as [-> ->].
    split; reflexivity.
Qed.

(** X18. [Run] sleeps once after every fetch that succeeded and never after
    a fetch that failed, and [n] passes make at most [n] fetches. *)
Theorem Run_sleeps_after_successful_fetches conf n env st :
  let evs := emitted (rss2socials.Run conf n) env st in
  length (List.filter is_sleep evs) = length (List.filter is_fetch_ok evs)
  /\ length (List.filter is_fetch evs) <= n.
Proof.
  simpl. destruct (String.eqb_spec (FeedURL conf) "") as [Hurl | Hurl].
  { unfold emitted, exec. rewrite (Run_no_url conf n env st Hurl). simpl.
    rewrite drop_hist. simpl. split; [reflexivity | lia]. }
  destruct (Run_unfold conf n env st Hurl) as [-> _].
  set (pre := if (Interval conf <=? 0)%Z
              then [EvLog ErrorLevel "Interval must be a positive integer"] else []).
  set (st1 := mkState (rows st) (hist st ++ pre)).
  assert (Hpre : Forall (fun ev => is_fetch ev = false /\ is_sleep ev = false) pre).
  { subst pre. destruct (Interval conf <=? 0)%Z; repeat constructor. }
  assert (Hinit : Forall (fun ev => is_fetch ev = false /\ is_sleep ev = false)
                    (emitted db.InitDB env st1)).
  { eapply Forall_impl; [apply InitDB_events|]. simpl. intros ev (_ & H2 & H3). auto. }
  assert (Hstart : Forall (fun ev => is_fetch ev = false /\ is_sleep ev = false)
                     (pre ++ emitted db.InitDB env st1)).
  { apply Forall_app. auto. }
  rewrite app_assoc. set (start := pre ++ emitted db.InitDB env st1) in *.
  rewrite !List.filter_app, !List.length_app.
  rewrite (filter_none is_sleep start), (filter_none is_fetch start),
    (filter_none is_fetch_ok start).
  - simpl. destruct (db.InitDB env st1).1; [|simpl; split; [reflexivity | lia]].
    destruct (loop_counts n (effective conf) env (exec db.InitDB env st1)) as [-> ->].
    split; [reflexivity | lia].
  - eapply Forall_impl; [exact Hstart|]. simpl. intros ev [Hf _].
    destruct ev; try reflexivity; discriminate.
  - eapply Forall_impl; [exact Hstart|]. simpl. intros ev [Hf _]. exact Hf.
  - eapply Forall_impl; [exact Hstart|]. simpl. intros ev [_ Hs]. exact Hs.
Qed.

(** *** The last segment of a link *)

Lemma has_slash_snoc seg c :
  has_slash seg = false -> Ascii.eqb c path.slash = false ->
  has_slash (seg ++ String c EmptyString) = false.
Proof.
  intros Hseg Hc. induction seg as [|d seg IH]; simpl in *.
  - rewrite Hc. reflexivity.
  - apply orb_false_iff in Hseg. destruct Hseg as [-> Hseg].
    simpl. apply IH. exact Hseg.
Qed.

Lemma lastElement_no_slash seg p :
  has_slash seg = false -> has_slash (path.lastElement seg p) = false.
Proof.
  revert seg. induction p as [|c p IH]; intros seg Hseg; simpl; [exact Hseg|].
  destruct (Ascii.eqb c path.slash) eqn:Hc.
  - apply IH. reflexivity.
  - apply IH. apply has_slash_snoc; assumption.
Qed.

Lemma append_snoc seg c p :
  ((seg ++ String c EmptyString) ++ p)%string = (seg ++ String c p)%string.
Proof.
  induction seg as [|d seg IH]; [reflexivity|].
  rewrite !append_cons, IH. reflexivity.
Qed.

Lemma lastElement_plain seg p :
  has_slash p = false -> path.lastElement seg p = (seg ++ p)%string.
Proof.
  revert seg. induction p as [|c p IH]; intros seg Hp; simpl in *.
  - induction seg as [|d seg IHs]; [reflexivity|]. rewrite append_cons, <- IHs. reflexivity.
  - apply orb_false_iff in Hp. destruct Hp as [Hc Hp]. rewrite Hc.
    rewrite IH by exact Hp. apply append_snoc.
Qed.

Lemma stripTrailingSlashes_plain p :
  has_slash p = false -> path.stripTrailingSlashes p = p.
Proof.
  induction p as [|c p IH]; intros Hp; simpl in *; [reflexivity|].
  apply orb_false_iff in Hp. destruct Hp as [Hc Hp]. rewrite (IH Hp), Hc.
  destruct p; reflexivity.
Qed.

(** X19. [path.Base] never returns the empty string, and what it returns
    is ["/"] or has no slash in it; a link that has no slash and is not
    empty is its own last segment. *)
Theorem Base_last_segment p :
  path.Base p <> ""
  /\ (path.Base p = "/" \/ has_slash (path.Base p) = false)
  /\ (p <> "" -> has_slash p = false -> path.Base p = p).
Proof.
  unfold path.Base.
  destruct (String.eqb_spec p "") as [-> | Hp].
  { split; [discriminate|]. split; [right; reflexivity | intros H; contradiction]. }
  simpl.
  destruct (String.eqb_spec (path.lastElement "" (path.stripTrailingSlashes p)) "")
    as [He | Hne].
  - split; [discriminate|]. split; [left; reflexivity|].
    intros _ Hs. exfalso.
    rewrite (stripTrailingSlashes_plain p Hs), (lastElement_plain "" p Hs) in He.
    apply Hp. exact He.
  - split; [exact Hne|]. split; [right; apply lastElement_no_slash; reflexivity|].
    intros _ Hs.
    rewrite (stripTrailingSlashes_plain p Hs). apply (lastElement_plain "" p Hs).
Qed.

(** *** The rows of the table *)

(** X20. If every row of the table holds a content hash of 64 characters
    when [Run] starts, so does every row after any number of passes. *)
Theorem Run_keeps_hashes_well_formed conf n env st :
  map_Forall (fun _ r => String.length (content_hash r) = 64) (rows st) ->
  map_Forall (fun _ r => String.length (content_hash r) = 64)
    (rows (exec (rss2socials.Run conf n) env st)).
Proof.
  pose (W := fun t : gmap string PostRecord =>
               map_Forall (fun _ r => String.length (content_hash r) = 64) t).
  apply (lift_Run (fun t t' _ => W t -> W t')); unfold W; clear W.
  - auto.
  - auto.
  - auto.
  - intros post env' st' Hw.
    destruct (handlePost_rows post (effective conf) env' st') as [-> | [now ->]];
      [exact Hw|].
    apply map_Forall_insert_2; [apply length_fingerprint | exact Hw].
Qed.

(** *** The further properties at work *)

Lemma handlePost_published_once_witness :
  emitted (rss2socials.handlePost p_new conf_demo) env_ok
    (exec (rss2socials.handlePost p_new conf_demo) env_ok st0)
  = [EvQuery "L" None].
Proof.
  assert (Hin : In (EvUpsert "L" (fingerprint "body") "2024-05-01T10:00:00Z" None)
                   (emitted (rss2socials.handlePost p_new conf_demo) env_ok st0)).
  { vm_compute. auto 10. }
  exact (proj1 (handlePost_published_once _ _ _ _ _ _ _ Hin p_new conf_demo env_ok
                  (exec (rss2socials.handlePost p_new conf_demo) env_ok st0)
                  eq_refl eq_refl eq_refl eq_refl)).
Defined.

Lemma handlePost_update_after_publish_witness :
  exists r rest,
    emitted (rss2socials.handlePost p_edited conf_demo) env_ok
      (exec (rss2socials.handlePost p_new conf_demo) env_ok st0)
    = [EvQuery "L" None;
       EvLog InfoLevel "Post has been updated: Thoughts on X";
       EvToot "https://m.example" "tok" "Blog post has been updated: L" r]
      ++ rest.
Proof.
  assert (Hin : In (EvUpsert "L" (fingerprint "body") "2024-05-01T10:00:00Z" None)
                   (emitted (rss2socials.handlePost p_new conf_demo) env_ok st0)).
  { vm_compute. auto 10. }
  assert (Hfp : fingerprint (Content p_edited) <> fingerprint (Content p_new)).
  { vm_compute. discriminate. }
  exact (proj1 (handlePost_update_after_publish _ _ _ _ _ _ _ Hin p_edited conf_demo env_ok
                  (exec (rss2socials.handlePost p_new conf_demo) env_ok st0)
                  eq_refl Hfp eq_refl eq_refl)).
Defined.

Lemma StoreTootedPost_upsert_witness :
  exists now,
    rows (exec (db.StoreTootedPost "L" "c1") env_ok st0) !! "L"
    = Some (mkRecord (fingerprint "c1") now).
Proof.
  assert (Hok : (db.StoreTootedPost "L" "c1" env_ok st0).1 = None)
    by (vm_compute; reflexivity).
  exact (proj1 (StoreTootedPost_upsert env_ok st0 "L" "c1" Hok)).
Defined.

Lemma handlePost_one_text_witness :
  exists pre, "body - L" = (pre ++ Link p_new)%string.
Proof.
  assert (Hin : In (EvBluesky "me.bsky.social" "app-password" "https://bsky.social"
                              "body - L" None)
                   (emitted (rss2socials.handlePost p_new conf_demo) env_ok st0)).
  { vm_compute. auto 10. }
  exact (proj1 (handlePost_one_text env_ok p_new conf_demo st0 _ "body - L" Hin eq_refl)).
Defined.

Lemma Run_without_mastodon_credentials_witness :
  rows (exec (rss2socials.Run conf_no_mastodon 2) env_ok st0) = rows st0.
Proof.
  assert (Hc : MastodonURL conf_no_mastodon = ""
               \/ MastodonAccessToken conf_no_mastodon = "") by (left; reflexivity).
  exact (proj1 (Run_without_mastodon_credentials conf_no_mastodon 2 env_ok st0 Hc)).
Defined.

Lemma category_filter_is_substring_witness :
  In (EvQuery "https://x.com/a/tech-post" None)
     (emitted (rss2socials.processPost p_tech conf_tech) env_ok st0).
Proof.
  assert (Hcat : Category conf_tech <> "") by discriminate.
  apply (proj2 (category_filter_is_substring p_tech conf_tech env_ok st0 Hcat)).
  exists "", "-post". vm_compute. reflexivity.
Defined.

Lemma Run_sleep_bounds_witness :
  In (EvSleep 3600000000000) (emitted (rss2socials.Run conf_demo 1) env_ok st0)
  /\ (0 < 3600000000000)%Z
  /\ In (EvSleep (-9223371993709551616))
        (emitted (rss2socials.Run conf_overflow 1) env_ok st0)
  /\ (-9223371993709551616 < 0)%Z.
Proof.
  assert (Hin : In (EvSleep 3600000000000)
                   (emitted (rss2socials.Run conf_demo 1) env_ok st0)).
  { vm_compute. auto 20. }
  assert (Hle : (Interval conf_demo <= 153722867)%Z) by (vm_compute; discriminate).
  assert (Hin' : In (EvSleep (-9223371993709551616))
                    (emitted (rss2socials.Run conf_overflow 1) env_ok st0)).
  { vm_compute. auto 20. }
  assert (Hov : (153722867 < Interval conf_overflow <= 307445734)%Z).
  { split; vm_compute; [reflexivity | discriminate]. }
  split; [exact Hin|]. split.
  - exact (proj2 (proj1 (Run_sleep_bounds _ _ _ _ _ Hin) Hle)).
  - split; [exact Hin'|].
    exact (proj2 (Run_sleep_bounds _ _ _ _ _ Hin') Hov).
Defined.

Lemma Run_startup_failure_witness :
  rows (exec (rss2socials.Run conf_no_feed 3) env_ok st0) = rows st0
  /\ exists pre msg,
      emitted (rss2socials.Run conf_no_feed 3) env_ok st0 = pre ++ [EvLog FatalLevel msg].
Proof.
  assert (H : FeedURL conf_no_feed = ""
              \/ (exists e, In (EvOpen (Some e))
                              (emitted (rss2socials.Run conf_no_feed 3) env_ok st0))
              \/ (exists e, In (EvCreateTable (Some e))
                              (emitted (rss2socials.Run conf_no_feed 3) env_ok st0)))
    by (left; reflexivity).
  destruct (Run_startup_failure conf_no_feed 3 env_ok st0 H) as (Hlast & _ & Hrows).
  split; [exact Hrows | exact Hlast].
Defined.

Lemma GetTootContent_set_witness :
  mastodon.GetTootContent p_new ["Thoughts"; "News"]
  = mastodon.GetTootContent p_new ["News"; "Thoughts"; "News"].
Proof.
  apply GetTootContent_set. intros cat. simpl. tauto.
Defined.

Lemma fingerprint_faithful_witness :
  (db.HasPostChanged "L" "c2" env_ok (exec (db.StoreTootedPost "L" "c1") env_ok st0)).1
  = (true, true, None).
Proof.
  assert (Hok : (db.StoreTootedPost "L" "c1" env_ok st0).1 = None)
    by (vm_compute; reflexivity).
  assert (Hne : rss.HashContent "c1" <> rss.HashContent "c2").
  { intros H. vm_compute in H. discriminate H. }
  exact (proj2 (proj2 (fingerprint_faithful "c1" "c2") env_ok st0 "L" Hok env_ok
                  (exec (db.StoreTootedPost "L" "c1") env_ok st0) eq_refl eq_refl) Hne).
Defined.

Lemma logFailure_behaviour_witness :
  In (EvLog InfoLevel
        "Error sending Gotify notification: gotify returned non-OK status: 500 Internal Server Error")
     (emitted (gotify.logFailure "Failed to toot new post" "unexpected HTTP status: 500"
                 conf_demo) env_gotify_down st0).
Proof.
  destruct (logFailure_behaviour "Failed to toot new post" "unexpected HTTP status: 500"
              conf_demo env_gotify_down st0) as (_ & _ & H & _).
  apply (H "Failed to toot new post" "unexpected HTTP status: 500").
  vm_compute. auto.
Defined.

Lemma Base_last_segment_witness : path.Base "tech-post" = "tech-post".
Proof.
  apply (Base_last_segment "tech-post"); [discriminate | reflexivity].
Defined.

Lemma Run_keeps_hashes_well_formed_witness :
  map_Forall (fun _ r => String.length (content_hash r) = 64)
    (rows (exec (rss2socials.Run conf_demo 2) env_ok st0)).
Proof.
  apply Run_keeps_hashes_well_formed. apply map_Forall_empty.
Defined.
